(** * egjs-imready: the readiness-aggregation manager ([ImReadyManager.ts])

    A shallow embedding of [class ImReadyManager] and the properties of its
    batch bookkeeping.  The manager's fields are a record, its methods are
    computations in a small state/log/exception monad, and the events it
    triggers are collected in a log. *)

From Stdlib Require Import Ascii String.
From stdpp Require Import sets strings list.


(** ** The DOM and the helpers of [utils.ts]

    [HTMLElement] is a browser object and [toArray], [getContentElements]
    and [hasLoadingAttribute] are imported from [./utils]; the manager only
    calls them, so they are an interface the embedding is parametric in.
    [toArray] turns an array-like into an array and is the identity on
    lists.

    [element.querySelectorAll(selectors)] parses [selectors] first and
    throws a [SyntaxError] when the string is no selector list, whatever the
    element; the empty string is none.  The interface gives the verdict of
    the parser and, for a selector list, the descendants that match. *)

Class Dom (HTMLElement : Type) := {
  tagName : HTMLElement → string;
  isSelectorList : string → bool;
  matching : HTMLElement → string → list HTMLElement;
  getContentElements : HTMLElement → list string → string → list HTMLElement;
  hasLoadingAttribute : HTMLElement → bool;
  empty_is_no_selector : isSelectorList "" = false;
}.

(** [None] is the [SyntaxError]. *)
Definition querySelectorAll `{Dom E} (element : E) (selectors : string)
    : option (list E) :=
  if isSelectorList selectors then Some (matching element selectors) else None.

Definition toArray {A : Type} (arr : list A) : list A := arr.

(** [String.prototype.toLowerCase] on the ASCII range tag names live in. *)
Definition lowerAscii (c : ascii) : ascii :=
  let n := nat_of_ascii c in
  if (65 <=? n) && (n <=? 90) then ascii_of_nat (n + 32) else c.

Fixpoint toLowerCase (s : string) : string :=
  match s with
  | EmptyString => EmptyString
  | String c s' => String (lowerAscii c) (toLowerCase s')
  end.

(** [Array.prototype.join]. *)
Fixpoint join (sep : string) (l : list string) : string :=
  match l with
  | [] => ""
  | [x] => x
  | x :: rest => x +:+ sep +:+ join sep rest
  end.

(** ** Options ([ImReadyOptions], [ImReadyLoaderOptions])

    A loader class is known by its name; [loaders] is the object that maps a
    lower-case tag name to the loader class registered for it.  A plain
    object is the list of its own properties in the order [Object.keys]
    lists them; [obj[key]] is the value of the property of that name.  Tag
    names are taken not to be names of members of [Object.prototype]. *)

Definition LoaderClass := string.

Definition PlainObject (A : Type) : Type := list (string * A).

Definition keys {A} (obj : PlainObject A) : list string := obj.*1.

Fixpoint getProperty {A} (key : string) (obj : PlainObject A) : option A :=
  match obj with
  | [] => None
  | (name, value) :: rest =>
      if String.eqb name key then Some value else getProperty key rest
  end.

Record ImReadyOptions := {
  loaders : PlainObject LoaderClass;
  prefix : string;
}.

Record ImReadyLoaderOptions := {
  loaderPrefix : string;
}.

(** A loader object, by the constructor call that made it.
    [RegisteredLoader] is [new loaders[tagName](element, options)];
    [ContainerLoader] is [new ElementLoader(element, options)] after
    [setHasLoading]. *)
Inductive Loader (E : Type) :=
  | RegisteredLoader (cls : LoaderClass) (element : E) (options : ImReadyLoaderOptions)
  | ContainerLoader (element : E) (options : ImReadyLoaderOptions) (hasLoading : bool).
Arguments RegisteredLoader {E}.
Arguments ContainerLoader {E}.

(** ** [ElementInfo] *)

Module ElementInfo.
Record t (E : Type) := mk {
  loader : option (Loader E);
  element : E;
  hasLoading : bool;
  hasError : bool;
  isPreReady : bool;
  isReady : bool;
}.
Arguments mk {E}.
Arguments loader {E}.
Arguments element {E}.
Arguments hasLoading {E}.
Arguments hasError {E}.
Arguments isPreReady {E}.
Arguments isReady {E}.

Definition setHasLoading {E} (b : bool) (i : t E) : t E :=
  mk (loader i) (element i) b (hasError i) (isPreReady i) (isReady i).
Definition setHasError {E} (b : bool) (i : t E) : t E :=
  mk (loader i) (element i) (hasLoading i) b (isPreReady i) (isReady i).
Definition setIsPreReady {E} (b : bool) (i : t E) : t E :=
  mk (loader i) (element i) (hasLoading i) (hasError i) b (isReady i).
Definition setIsReady {E} (b : bool) (i : t E) : t E :=
  mk (loader i) (element i) (hasLoading i) (hasError i) (isPreReady i) b.
End ElementInfo.

(** ** Event payloads ([ImReadyEvents]) *)

Module OnError.
Record t (E : Type) := mk {
  element : E;
  index : nat;
  target : E;
  errorCount : nat;
  totalErrorCount : nat;
}.
Arguments mk {E}.
Arguments element {E}.
Arguments index {E}.
Arguments target {E}.
Arguments errorCount {E}.
Arguments totalErrorCount {E}.
End OnError.

Module OnPreReadyElement.
Record t (E : Type) := mk {
  element : E;
  index : nat;
  preReadyCount : nat;
  readyCount : nat;
  totalCount : nat;
  isPreReady : bool;
  isReady : bool;
  hasLoading : bool;
}.
Arguments mk {E}.
End OnPreReadyElement.

Module OnPreReady.
Record t := mk {
  readyCount : nat;
  totalCount : nat;
  isReady : bool;
  hasLoading : bool;
}.
End OnPreReady.

Module OnReadyElement.
Record t (E : Type) := mk {
  index : nat;
  element : E;
  hasError : bool;
  errorCount : nat;
  totalErrorCount : nat;
  preReadyCount : nat;
  readyCount : nat;
  totalCount : nat;
  isPreReady : bool;
  isReady : bool;
  hasLoading : bool;
  isPreReadyOver : bool;
}.
Arguments mk {E}.
End OnReadyElement.

Module OnReady.
Record t := mk {
  errorCount : nat;
  totalErrorCount : nat;
  totalCount : nat;
}.
End OnReady.

Inductive Event (E : Type) :=
  | EvError (e : OnError.t E)
  | EvPreReadyElement (e : OnPreReadyElement.t E)
  | EvPreReady (e : OnPreReady.t)
  | EvReadyElement (e : OnReadyElement.t E)
  | EvReady (e : OnReady.t).
Arguments EvError {E}.
Arguments EvPreReadyElement {E}.
Arguments EvPreReady {E}.
Arguments EvReadyElement {E}.
Arguments EvReady {E}.

Definition eventName {E} (e : Event E) : string :=
  match e with
  | EvError _ => "error"
  | EvPreReadyElement _ => "preReadyElement"
  | EvPreReady _ => "preReady"
  | EvReadyElement _ => "readyElement"
  | EvReady _ => "ready"
  end.

(** ** Listeners and effects

    The manager extends [Component]: it keeps the handlers registered with
    [on], [trigger] calls those registered for the event's name, and [off]
    without arguments drops them all.  A handler is either one the consumer
    of the library attached (known by a number, and taken not to call back
    into the manager) or one of the three closures [getLoader] attaches to
    the nested manager of a container. *)

Inductive Listener :=
  | Consumer (id : nat)
  | ForwardError
  | ForwardReady
  | ForwardPreReady.

(** The callback handed to [setTimeout] in [check]. *)
Inductive Task :=
  | EmptyBatchTask.

Inductive Effect (E : Type) :=
  | LoaderCheck (l : Loader E)
  | LoaderSubscribe (l : Loader E) (index : nat)
  | LoaderDestroy (l : Loader E)
  | Trigger (e : Event E) (handlers : list Listener)
  | SetTimeout (t : Task).
Arguments LoaderCheck {E}.
Arguments LoaderSubscribe {E}.
Arguments LoaderDestroy {E}.
Arguments Trigger {E}.
Arguments SetTimeout {E}.

(** ** The manager's fields

    The counters are JavaScript numbers that only ever hold small
    non-negative integers; they are natural numbers here. *)

Record Manager (E : Type) := mkManager {
  options : ImReadyOptions;
  readyCount : nat;
  preReadyCount : nat;
  totalCount : nat;
  totalErrorCount : nat;
  isPreReadyOver : bool;
  elementInfos : list (ElementInfo.t E);
  listeners : list (string * Listener);
}.
Arguments mkManager {E}.
Arguments options {E}.
Arguments readyCount {E}.
Arguments preReadyCount {E}.
Arguments totalCount {E}.
Arguments totalErrorCount {E}.
Arguments isPreReadyOver {E}.
Arguments elementInfos {E}.
Arguments listeners {E}.

Section Setters.
Context {E : Type}.
Implicit Type m : Manager E.

Definition setReadyCount (n : nat) m : Manager E :=
  mkManager (options m) n (preReadyCount m) (totalCount m)
    (totalErrorCount m) (isPreReadyOver m) (elementInfos m) (listeners m).
Definition setPreReadyCount (n : nat) m : Manager E :=
  mkManager (options m) (readyCount m) n (totalCount m)
    (totalErrorCount m) (isPreReadyOver m) (elementInfos m) (listeners m).
Definition setTotalCount (n : nat) m : Manager E :=
  mkManager (options m) (readyCount m) (preReadyCount m) n
    (totalErrorCount m) (isPreReadyOver m) (elementInfos m) (listeners m).
Definition setTotalErrorCount (n : nat) m : Manager E :=
  mkManager (options m) (readyCount m) (preReadyCount m) (totalCount m)
    n (isPreReadyOver m) (elementInfos m) (listeners m).
Definition setIsPreReadyOver (b : bool) m : Manager E :=
  mkManager (options m) (readyCount m) (preReadyCount m) (totalCount m)
    (totalErrorCount m) b (elementInfos m) (listeners m).
Definition setElementInfos (l : list (ElementInfo.t E)) m : Manager E :=
  mkManager (options m) (readyCount m) (preReadyCount m) (totalCount m)
    (totalErrorCount m) (isPreReadyOver m) l (listeners m).
Definition setListeners (l : list (string * Listener)) m : Manager E :=
  mkManager (options m) (readyCount m) (preReadyCount m) (totalCount m)
    (totalErrorCount m) (isPreReadyOver m) (elementInfos m) l.
End Setters.

(** ** The method monad

    A method runs on the manager's fields, returns a value and the fields
    after it, and logs the effects it had on the outside, in order.  [None]
    is an uncaught exception: the [TypeError] of reading or writing a
    property of [undefined], or the [SyntaxError] of [querySelectorAll]. *)

Definition M (E A : Type) : Type :=
  Manager E → option (A * Manager E * list (Effect E)).

Section Monad.
Context {E : Type}.

Definition ret {A} (a : A) : M E A := λ m, Some (a, m, []).

Definition bind {A B} (c : M E A) (k : A → M E B) : M E B :=
  λ m, match c m with
       | None => None
       | Some (a, m1, log1) =>
           match k a m1 with
           | None => None
           | Some (b, m2, log2) => Some (b, m2, log1 ++ log2)
           end
       end.

Definition get : M E (Manager E) := λ m, Some (m, m, []).
Definition modify (f : Manager E → Manager E) : M E unit :=
  λ m, Some (tt, f m, []).
Definition emit (e : Effect E) : M E unit := λ m, Some (tt, m, [e]).
Definition throwTypeError {A} : M E A := λ _, None.

(** A call of a method that returns or throws without touching the
    fields: its exception is the caller's. *)
Definition called {A} (result : option A) : M E A :=
  λ m, match result with
       | Some a => Some (a, m, [])
       | None => None
       end.

(** [c1 && c2] on a computed flag and a call: the call is skipped when the
    flag is false. *)
Definition andThen (b : bool) (c : M E bool) : M E bool :=
  if b then c else ret false.

(** [b && f()] as a statement. *)
Definition when (b : bool) (c : M E unit) : M E unit :=
  if b then c else ret tt.
End Monad.

Declare Scope method_scope.
Delimit Scope method_scope with method.
Notation "x <- c ;; k" := (bind c (λ x, k))
  (at level 100, c at next level, right associativity) : method_scope.
Notation "c ;; k" := (bind c (λ _, k))
  (at level 100, right associativity) : method_scope.
Local Open Scope method_scope.

(** ** The methods of [ImReadyManager] *)

Record PartialOptions := {
  givenLoaders : option (PlainObject LoaderClass);
  givenPrefix : option string;
}.

(** What [getLoader] wires for a container: the three closures attached to
    the container's loader, and the loader's methods the closures attached
    to the nested manager call. *)
Inductive Request :=
  | CheckContentElements
  | CheckChildren
  | DestroyChildren.

Inductive LoaderCall (E : Type) :=
  | CallOnError (target : E)
  | CallOnReady (withPreReady : bool)
  | CallOnPreReady.
Arguments CallOnError {E}.
Arguments CallOnReady {E}.
Arguments CallOnPreReady {E}.

(** The objects [getLoader] allocates for a container and the variables its
    closures share: the loader with its handlers, [children],
    [withPreReady], the nested manager [childrenImReady], and what has been
    called and logged so far. *)
Record Container (E : Type) := mkContainer {
  containerLoader : Loader E;
  containerElement : E;
  ownerOptions : ImReadyOptions;
  loaderHandlers : list (string * Request);
  children : list E;
  tags : list string;
  withPreReady : bool;
  childrenImReady : Manager E;
  loaderCalls : list (LoaderCall E);
  childrenEffects : list (Effect E);
}.
Arguments mkContainer {E}.
Arguments containerLoader {E}.
Arguments containerElement {E}.
Arguments ownerOptions {E}.
Arguments loaderHandlers {E}.
Arguments children {E}.
Arguments tags {E}.
Arguments withPreReady {E}.
Arguments childrenImReady {E}.
Arguments loaderCalls {E}.
Arguments childrenEffects {E}.

Inductive LoaderCell (E : Type) :=
  | Registered (l : Loader E)
  | Nested (c : Container E).
Arguments Registered {E}.
Arguments Nested {E}.

Definition cellLoader {E} (c : LoaderCell E) : Loader E :=
  match c with
  | Registered l => l
  | Nested c => containerLoader c
  end.

Section ImReadyManager.
Context `{Dom E}.

(** [constructor(options = {})]: the field initialisers, then
    [{ loaders: {}, prefix: "data-", ...options }]. *)
Definition constructor (o : PartialOptions) : Manager E :=
  mkManager
    {| loaders := default [] (givenLoaders o);
       prefix := default "data-" (givenPrefix o) |}
    0 0 0 0 true [] [].

(** [Component]'s [on], [off()] and [trigger]. *)
Definition on (name : string) (l : Listener) : M E unit :=
  modify (λ m, setListeners (listeners m ++ [(name, l)]) m).

Definition off : M E unit := modify (setListeners []).

Definition handlersFor (name : string) (m : Manager E) : list Listener :=
  (List.filter (λ p, String.eqb p.1 name) (listeners m)).*2.

Definition trigger (e : Event E) : M E unit :=
  m <- get ;; emit (Trigger e (handlersFor (eventName e) m)).

(** [this.elementInfos[index]], which is [undefined] out of range. *)
Definition infoAt (index : nat) : M E (option (ElementInfo.t E)) :=
  m <- get ;; ret (elementInfos m !! index).

(** [const info = this.elementInfos[index]] followed by a use of a property
    of [info]: the use throws when [info] is [undefined]. *)
Definition withInfo {A} (index : nat) (k : ElementInfo.t E → M E A) : M E A :=
  o <- infoAt index ;;
  match o with
  | None => throwTypeError
  | Some info => k info
  end.

(** [this.elementInfos[index].field = v]. *)
Definition updateInfo (index : nat)
    (f : ElementInfo.t E → ElementInfo.t E) : M E unit :=
  withInfo index (λ info,
    modify (λ m, setElementInfos (<[index := f info]> (elementInfos m)) m)).

Definition getTotalCount (m : Manager E) : nat := totalCount m.

Definition isPreReady (m : Manager E) : bool :=
  forallb ElementInfo.isPreReady (elementInfos m).

Definition isReady (m : Manager E) : bool :=
  forallb ElementInfo.isReady (elementInfos m).

Definition getErrorCount (m : Manager E) : nat :=
  length (List.filter ElementInfo.hasError (elementInfos m)).

Definition hasLoading (m : Manager E) : bool :=
  existsb ElementInfo.hasLoading (elementInfos m).

(** [elementInfos.forEach(info => { if (!info.isReady && info.loader)
    info.loader.destroy(); })]. *)
Fixpoint destroyUnfinished (infos : list (ElementInfo.t E)) : M E unit :=
  match infos with
  | [] => ret tt
  | info :: rest =>
      match ElementInfo.isReady info, ElementInfo.loader info with
      | false, Some l => emit (LoaderDestroy l)
      | _, _ => ret tt
      end ;;
      destroyUnfinished rest
  end.

Definition clear : M E unit :=
  modify (setIsPreReadyOver false) ;;
  modify (setTotalCount 0) ;;
  modify (setPreReadyCount 0) ;;
  modify (setReadyCount 0) ;;
  modify (setTotalErrorCount 0) ;;
  m <- get ;;
  destroyUnfinished (elementInfos m) ;;
  modify (setElementInfos []).

Definition destroy : M E unit :=
  clear ;; off.

Definition clone (m : Manager E) : Manager E :=
  constructor {| givenLoaders := Some (loaders (options m));
                 givenPrefix := Some (prefix (options m)) |}.

(** [getLoader(element, options)].  It reads [this.options] only, and it
    throws when [querySelectorAll] does: with no loader registered the
    selector [tags.join(", ")] is the empty string. *)
Definition getLoader (m : Manager E) (element : E)
    (opts : ImReadyLoaderOptions) : option (LoaderCell E) :=
  let tagName := toLowerCase (tagName element) in
  let loaders := loaders (options m) in
  let tags := keys loaders in
  match getProperty tagName loaders with
  | Some cls => Some (Registered (RegisteredLoader cls element opts))
  | None =>
      match querySelectorAll element (join ", " tags) with
      | None => None
      | Some found =>
          let children := toArray found in
          let loader :=
            ContainerLoader element opts
              (existsb hasLoadingAttribute children) in
          let withPreReady := false in
          let childrenImReady :=
            setListeners [("error", ForwardError); ("ready", ForwardReady)]
              (clone m) in
          Some (Nested
            (mkContainer loader element (options m)
               [("requestChildren", CheckContentElements);
                ("reqeustReadyChildren", CheckChildren);
                ("requestDestroy", DestroyChildren)]
               children tags withPreReady childrenImReady [] []))
      end
  end.

Definition checkPreReady (index : nat) : M E bool :=
  updateInfo index (ElementInfo.setIsPreReady true) ;;
  modify (λ m, setPreReadyCount (S (preReadyCount m)) m) ;;
  m <- get ;;
  if preReadyCount m <? totalCount m then ret false else ret true.

Definition checkReady (index : nat) : M E bool :=
  updateInfo index (ElementInfo.setIsReady true) ;;
  modify (λ m, setReadyCount (S (readyCount m)) m) ;;
  m <- get ;;
  if readyCount m <? totalCount m then ret false else ret true.

Definition onError (index : nat) (target : E) : M E unit :=
  updateInfo index (ElementInfo.setHasError true) ;;
  withInfo index (λ info,
    m <- get ;;
    let errorCount := getErrorCount m in
    modify (setTotalErrorCount (S (totalErrorCount m))) ;;
    trigger (EvError
      (OnError.mk (ElementInfo.element info) index target errorCount
         (S (totalErrorCount m))))).

Definition onPreReadyElement (index : nat) : M E unit :=
  withInfo index (λ info,
    m <- get ;;
    trigger (EvPreReadyElement
      (OnPreReadyElement.mk (ElementInfo.element info) index
         (preReadyCount m) (readyCount m) (totalCount m)
         (isPreReady m) (isReady m) (ElementInfo.hasLoading info)))).

Definition onPreReady : M E unit :=
  modify (setIsPreReadyOver true) ;;
  m <- get ;;
  trigger (EvPreReady
    (OnPreReady.mk (readyCount m) (totalCount m) (isReady m) (hasLoading m))).

Definition onReadyElement (index : nat) : M E unit :=
  withInfo index (λ info,
    m <- get ;;
    trigger (EvReadyElement
      (OnReadyElement.mk index (ElementInfo.element info)
         (ElementInfo.hasError info) (getErrorCount m) (totalErrorCount m)
         (preReadyCount m) (readyCount m) (totalCount m)
         (isPreReady m) (isReady m)
         (ElementInfo.hasLoading info) (isPreReadyOver m)))).

Definition onReady : M E unit :=
  m <- get ;;
  trigger (EvReady
    (OnReady.mk (getErrorCount m) (totalErrorCount m) (totalCount m))).

(** [Array.prototype.map] with the index, for a callback with effects. *)
Fixpoint mapIndexed {A B} (f : A → nat → M E B) (l : list A) (index : nat)
    : M E (list B) :=
  match l with
  | [] => ret []
  | x :: rest =>
      y <- f x index ;;
      ys <- mapIndexed f rest (S index) ;;
      ret (y :: ys)
  end.

(** [check(elements)].  The three handlers attached to each loader are
    [onLoaderEvent] below; attaching them is the effect
    [LoaderSubscribe].  The method returns [this].  When [getLoader] throws
    for an element, [check] throws out of [map], after [clear()] and before
    [elementInfos] and [totalCount] are assigned. *)
Definition check (elements : list E) : M E unit :=
  m0 <- get ;;
  let prefix := prefix (options m0) in
  clear ;;
  infos <- mapIndexed (λ element index,
      m <- get ;;
      cell <- called (getLoader m element {| loaderPrefix := prefix |}) ;;
      let loader := cellLoader cell in
      emit (LoaderCheck loader) ;;
      emit (LoaderSubscribe loader index) ;;
      ret (ElementInfo.mk (Some loader) element false false false false))
    (toArray elements) 0 ;;
  modify (setElementInfos infos) ;;
  m <- get ;;
  let length := length (elementInfos m) in
  modify (setTotalCount length) ;;
  when (length =? 0) (emit (SetTimeout EmptyBatchTask)).

(** The callback of [setTimeout]: [() => { this.onPreReady();
    this.onReady(); }]. *)
Definition runTask (t : Task) : M E unit :=
  match t with
  | EmptyBatchTask => onPreReady ;; onReady
  end.
End ImReadyManager.

(** ** What a loader tells its manager

    The events of a loader that [check] subscribes to, with the fields of
    the payload the handlers read. *)
Inductive LoaderEvent (E : Type) :=
  | LoaderError (target : E)
  | LoaderPreReady (hasLoading : bool)
  | LoaderReady (withPreReady hasLoading : bool).
Arguments LoaderError {E}.
Arguments LoaderPreReady {E}.
Arguments LoaderReady {E}.

Section Handlers.
Context `{Dom E}.

(** The handlers [check] attaches to the loader of slot [index]. *)
Definition onLoaderEvent (index : nat) (e : LoaderEvent E) : M E unit :=
  match e with
  | LoaderError target =>
      onError index target
  | LoaderPreReady hasLoading =>
      updateInfo index (ElementInfo.setHasLoading hasLoading) ;;
      isPreReady <- checkPreReady index ;;
      onPreReadyElement index ;;
      when isPreReady onPreReady
  | LoaderReady withPreReady hasLoading =>
      updateInfo index (ElementInfo.setHasLoading hasLoading) ;;
      isPreReady <- andThen withPreReady (checkPreReady index) ;;
      isReady <- checkReady index ;;
      when withPreReady (onPreReadyElement index) ;;
      onReadyElement index ;;
      when isPreReady onPreReady ;;
      when isReady onReady
  end.

(** Loader events reach the manager one at a time, in the order the event
    loop delivers them. *)
Fixpoint deliver (events : list (nat * LoaderEvent E)) : M E unit :=
  match events with
  | [] => ret tt
  | (index, e) :: rest => onLoaderEvent index e ;; deliver rest
  end.
End Handlers.

(** ** A container and its nested manager

    The closures of [getLoader], run on the objects they share. *)
Section ContainerWiring.
Context `{Dom E}.
Implicit Type k : Container E.

Definition setWithPreReady (b : bool) k : Container E :=
  mkContainer (containerLoader k) (containerElement k) (ownerOptions k)
    (loaderHandlers k) (children k) (tags k) b (childrenImReady k)
    (loaderCalls k) (childrenEffects k).

Definition callLoader (c : LoaderCall E) k : Container E :=
  mkContainer (containerLoader k) (containerElement k) (ownerOptions k)
    (loaderHandlers k) (children k) (tags k) (withPreReady k)
    (childrenImReady k) (loaderCalls k ++ [c]) (childrenEffects k).

Definition stepChildren (m : Manager E) (log : list (Effect E)) k
    : Container E :=
  mkContainer (containerLoader k) (containerElement k) (ownerOptions k)
    (loaderHandlers k) (children k) (tags k) (withPreReady k)
    m (loaderCalls k) (childrenEffects k ++ log).

(** One handler of the nested manager, called by its [trigger]:
    [e => loader.onError(e.target)], [() => loader.onReady(withPreReady)]
    and [e => { withPreReady = e.isReady; if (!withPreReady)
    loader.onPreReady(); }].  A consumer's handler is none of the
    container's business. *)
Definition forward (ev : Event E) k (h : Listener) : Container E :=
  match h, ev with
  | ForwardError, EvError e => callLoader (CallOnError (OnError.target e)) k
  | ForwardReady, _ => callLoader (CallOnReady (withPreReady k)) k
  | ForwardPreReady, EvPreReady e =>
      let k' := setWithPreReady (OnPreReady.isReady e) k in
      if withPreReady k' then k' else callLoader CallOnPreReady k'
  | _, _ => k
  end.

Definition notify k (eff : Effect E) : Container E :=
  match eff with
  | Trigger ev handlers => foldl (forward ev) k handlers
  | _ => k
  end.

(** A method of the nested manager, with its handlers run. *)
Definition runChildren {A} (c : M E A) k : option (Container E) :=
  match c (childrenImReady k) with
  | None => None
  | Some (_, m, log) => Some (foldl notify (stepChildren m log k) log)
  end.

(** The three closures attached to the container's loader. *)
Definition request (r : Request) k : option (Container E) :=
  match r with
  | CheckContentElements =>
      let contentElements :=
        getContentElements (containerElement k) (tags k)
          (prefix (ownerOptions k)) in
      runChildren (check contentElements ;; on "preReady" ForwardPreReady) k
  | CheckChildren => runChildren (check (children k)) k
  | DestroyChildren => runChildren destroy k
  end.

Fixpoint requests (rs : list Request) k : option (Container E) :=
  match rs with
  | [] => Some k
  | r :: rest =>
      match request r k with
      | None => None
      | Some k' => requests rest k'
      end
  end.

(** [loader.trigger(name)]: the handlers attached under [name], in
    order. *)
Definition loaderTrigger (name : string) k : option (Container E) :=
  requests (List.filter (λ p, String.eqb p.1 name) (loaderHandlers k)).*2 k.

(** An event of one of the nested manager's own loaders, and the timer of
    its empty batch. *)
Definition childLoaderEvent (index : nat) (e : LoaderEvent E) k
    : option (Container E) :=
  runChildren (onLoaderEvent index e) k.

Definition childTask (t : Task) k : option (Container E) :=
  runChildren (runTask t) k.
End ContainerWiring.

(** ** A page to run the manager on

    A [div] that holds two images, the second one lazy, and a video next to
    it.  [img] is the only tag with a registered loader. *)
Module Page.
Inductive Node := Div | Img1 | Img2 | Video.

#[export] Instance dom : Dom Node := {|
  tagName n :=
    match n with
    | Div => "DIV" | Img1 | Img2 => "IMG" | Video => "VIDEO"
    end;
  isSelectorList selector := negb (String.eqb selector "");
  matching n selector :=
    match n with
    | Div => if String.eqb selector "img" then [Img1; Img2] else []
    | _ => []
    end;
  getContentElements n tags prefix :=
    match n with
    | Div => if bool_decide ("img" ∈ tags) then [Img1; Img2] else []
    | _ => []
    end;
  hasLoadingAttribute n :=
    match n with
    | Img2 => true
    | _ => false
    end;
  empty_is_no_selector := eq_refl;
|}.

Definition imReady : Manager Node :=
  constructor {| givenLoaders := Some [("img", "ImageLoader")];
                 givenPrefix := None |}.

(** [new ImReadyManager()]: no loader is registered. *)
Definition bare : Manager Node :=
  constructor {| givenLoaders := None; givenPrefix := None |}.

Definition imageLoader (n : Node) : Loader Node :=
  RegisteredLoader "ImageLoader" n {| loaderPrefix := "data-" |}.

(** The two images checked, and the first one ready with its size. *)
Definition halfway : Manager Node :=
  mkManager (options imReady) 1 1 2 0 false
    [ElementInfo.mk (Some (imageLoader Img1)) Img1 false false true true;
     ElementInfo.mk (Some (imageLoader Img2)) Img2 false false false false]
    [].

(** Runs of loader events: a loader that is ready without ever being
    pre-ready, one that is pre-ready after it is ready, two loaders that
    keep their contract, and one that fails twice. *)
Definition silent : list (nat * LoaderEvent Node) :=
  [(0, LoaderReady false false)].


Definition orderly : list (nat * LoaderEvent Node) :=
  [(0, LoaderPreReady false); (1, LoaderError Img2);
   (1, LoaderReady true false); (0, LoaderReady false false)].


Definition failures : list (nat * LoaderEvent Node) :=
  [(0, LoaderError Img1); (1, LoaderError Img2); (0, LoaderError Img1)].

Definition firstReady : ElementInfo.t Node :=
  ElementInfo.mk (Some (imageLoader Img1)) Img1 false false true true.

Definition secondWaiting : ElementInfo.t Node :=
  ElementInfo.mk (Some (imageLoader Img2)) Img2 false false false false.
End Page.

(** ** Vocabulary of the properties *)

Section Vocabulary.
Context `{Dom E}.

(** The loaders [clear] destroys: those of the entries not yet ready. *)
Definition unfinishedLoaders (infos : list (ElementInfo.t E))
    : list (Loader E) :=
  omap (λ info, if ElementInfo.isReady info
                then None else ElementInfo.loader info) infos.

(** Whether [getLoader] returns for an element, and for every element of
    a batch: whether [check] gets through its [map]. *)
Definition resolves (m : Manager E) (element : E) : bool :=
  match getLoader m element {| loaderPrefix := prefix (options m) |} with
  | Some _ => true
  | None => false
  end.

Definition checkable (m : Manager E) (elements : list E) : bool :=
  forallb (resolves m) elements.

(** The loader [getLoader] returns for an element, when it returns: the
    one registered for the tag, or else the [ElementLoader] of a container
    (lemma [getLoader_loaderOf]). *)
Definition loaderOf (m : Manager E) (element : E) : Loader E :=
  let opts := {| loaderPrefix := prefix (options m) |} in
  let loaders := loaders (options m) in
  match getProperty (toLowerCase (tagName element)) loaders with
  | Some cls => RegisteredLoader cls element opts
  | None =>
      ContainerLoader element opts
        (existsb hasLoadingAttribute
           (matching element (join ", " (keys loaders))))
  end.

(** The entry [check] makes for an element. *)
Definition freshInfo (m : Manager E) (element : E) : ElementInfo.t E :=
  ElementInfo.mk (Some (loaderOf m element)) element false false false false.

(** The effects of [check] on the new loaders, from slot [index] on. *)
Fixpoint subscriptions (m : Manager E) (elements : list E) (index : nat)
    : list (Effect E) :=
  match elements with
  | [] => []
  | element :: rest =>
      let loader := loaderOf m element in
      LoaderCheck loader :: LoaderSubscribe loader index
        :: subscriptions m rest (S index)
  end.

(** The batch-level events in a log. *)
Definition isBatchPreReady (eff : Effect E) : bool :=
  match eff with
  | Trigger (EvPreReady _) _ => true
  | _ => false
  end.

Definition isBatchReady (eff : Effect E) : bool :=
  match eff with
  | Trigger (EvReady _) _ => true
  | _ => false
  end.

Definition isTrigger (eff : Effect E) : bool :=
  match eff with
  | Trigger _ _ => true
  | _ => false
  end.

Definition batchPreReadyCount (log : list (Effect E)) : nat :=
  length (List.filter isBatchPreReady log).

Definition batchReadyCount (log : list (Effect E)) : nat :=
  length (List.filter isBatchReady log).

(** An event of the log went to the handlers registered under its name
    with the manager [m]. *)
Definition addressed (m : Manager E) (eff : Effect E) : Prop :=
  match eff with
  | Trigger e handlers => handlers = handlersFor (eventName e) m
  | _ => True
  end.

(** A stretch of the log in which neither batch event is triggered. *)
Definition quiet (log : list (Effect E)) : Prop :=
  batchPreReadyCount log = 0 ∧ batchReadyCount log = 0.

(** What a loader event counts for. *)
Definition countsPreReady (e : LoaderEvent E) : bool :=
  match e with
  | LoaderPreReady _ => true
  | LoaderReady withPreReady _ => withPreReady
  | LoaderError _ => false
  end.

Definition countsReady (e : LoaderEvent E) : bool :=
  match e with
  | LoaderReady _ _ => true
  | _ => false
  end.

Definition countsError (e : LoaderEvent E) : bool :=
  match e with
  | LoaderError _ => true
  | _ => false
  end.

(** The slots named by the events of one kind, in delivery order. *)
Definition indicesOf (kind : LoaderEvent E → bool)
    (events : list (nat * LoaderEvent E)) : list nat :=
  (List.filter (λ p, kind p.2) events).*1.

(** What the handlers write into the entry of the loader. *)
Definition touch (e : LoaderEvent E) (info : ElementInfo.t E)
    : ElementInfo.t E :=
  match e with
  | LoaderError _ => ElementInfo.setHasError true info
  | LoaderPreReady hasLoading =>
      ElementInfo.setIsPreReady true
        (ElementInfo.setHasLoading hasLoading info)
  | LoaderReady withPreReady hasLoading =>
      ElementInfo.setIsReady true
        ((if withPreReady then ElementInfo.setIsPreReady true else id)
           (ElementInfo.setHasLoading hasLoading info))
  end.

(** The fields after [clear], after [check] and after the handler of a
    loader event on slot [index], whose entry was [info]. *)
Definition cleared (m : Manager E) : Manager E :=
  mkManager (options m) 0 0 0 0 false [] (listeners m).

Definition checked (m : Manager E) (elements : list E) : Manager E :=
  mkManager (options m) 0 0 (length elements) 0 false
    (freshInfo m <$> elements) (listeners m).

Definition firesPreReady (e : LoaderEvent E) (m : Manager E) : bool :=
  countsPreReady e && (totalCount m <=? S (preReadyCount m)).

Definition firesReady (e : LoaderEvent E) (m : Manager E) : bool :=
  countsReady e && (totalCount m <=? S (readyCount m)).

Definition afterEvent (index : nat) (e : LoaderEvent E)
    (info : ElementInfo.t E) (m : Manager E) : Manager E :=
  mkManager (options m)
    (if countsReady e then S (readyCount m) else readyCount m)
    (if countsPreReady e then S (preReadyCount m) else preReadyCount m)
    (totalCount m)
    (if countsError e then S (totalErrorCount m) else totalErrorCount m)
    (if firesPreReady e m then true else isPreReadyOver m)
    (<[index := touch e info]> (elementInfos m))
    (listeners m).

(** The entry of slot [j] after the handlers of [events] have run. *)
Definition infoAfter (events : list (nat * LoaderEvent E)) (j : nat)
    (info : ElementInfo.t E) : ElementInfo.t E :=
  foldl (λ info p, if p.1 =? j then touch p.2 info else info) info events.

(** How many of the loader events that count for a milestone make the
    manager trigger its batch event, when [count] had been counted before
    them and [more] come: those that bring the counter to [total] or
    beyond. *)
Definition firings (total count more : nat) : nat :=
  count + more + 1 - Nat.max total (count + 1).

(** The calls by which a container's loader learns of its milestones, as
    opposed to the errors passed on to it. *)
Definition isMilestoneCall (c : LoaderCall E) : bool :=
  match c with
  | CallOnError _ => false
  | _ => true
  end.

Definition milestoneCalls (calls : list (LoaderCall E)) : list (LoaderCall E) :=
  List.filter isMilestoneCall calls.

(** The payloads of the batch events, read off the fields. *)
Definition preReadyPayload (m : Manager E) : OnPreReady.t :=
  OnPreReady.mk (readyCount m) (totalCount m) (isReady m) (hasLoading m).

Definition readyPayload (m : Manager E) : OnReady.t :=
  OnReady.mk (getErrorCount m) (totalErrorCount m) (totalCount m).

(** The operations on a manager besides [check], [clear] and [destroy]:
    the handlers of its loaders, the timer of the empty batch, [on] and
    [off], and its private methods. *)
Inductive Operation :=
  | DoLoaderEvent (index : nat) (e : LoaderEvent E)
  | DoTask (t : Task)
  | DoOn (name : string) (l : Listener)
  | DoOff
  | DoCheckPreReady (index : nat)
  | DoCheckReady (index : nat)
  | DoOnError (index : nat) (target : E)
  | DoOnPreReadyElement (index : nat)
  | DoOnPreReady
  | DoOnReadyElement (index : nat)
  | DoOnReady.

Definition perform (op : Operation) : M E unit :=
  match op with
  | DoLoaderEvent index e => onLoaderEvent index e
  | DoTask t => runTask t
  | DoOn name l => on name l
  | DoOff => off
  | DoCheckPreReady index => checkPreReady index ;; ret tt
  | DoCheckReady index => checkReady index ;; ret tt
  | DoOnError index target => onError index target
  | DoOnPreReadyElement index => onPreReadyElement index
  | DoOnPreReady => onPreReady
  | DoOnReadyElement index => onReadyElement index
  | DoOnReady => onReady
  end.

Fixpoint performAll (ops : list Operation) : M E unit :=
  match ops with
  | [] => ret tt
  | op :: rest => perform op ;; performAll rest
  end.

(** The contract of the loaders of a batch of [n] resources, on the
    events they deliver: every event names a slot of the batch; every
    loader reports pre-ready exactly once, by [preReady] or by [ready]
    with [withPreReady]; every loader reports ready exactly once; and at
    no moment has a loader reported ready without having reported
    pre-ready. *)
Definition inBatch (n : nat) (events : list (nat * LoaderEvent E)) : bool :=
  forallb (λ p, p.1 <? n) events.

Definition occurrences (i : nat) (l : list nat) : nat :=
  length (List.filter (Nat.eqb i) l).

Definition exactlyOnce (n : nat) (l : list nat) : bool :=
  forallb (λ i, occurrences i l =? 1) (seq 0 n).

Definition preReadyFirst (events : list (nat * LoaderEvent E)) : bool :=
  forallb (λ k,
      forallb (λ i, 1 <=? occurrences i
                             (indicesOf countsPreReady (take k events)))
        (indicesOf countsReady (take k events)))
    (seq 0 (S (length events))).

Definition loaderContract (n : nat) (events : list (nat * LoaderEvent E))
    : bool :=
  inBatch n events
  && exactlyOnce n (indicesOf countsPreReady events)
  && exactlyOnce n (indicesOf countsReady events)
  && preReadyFirst events.




(** What may run between a [check] of an empty collection and its
    callback without starting a batch: [on], [off], [clear], [destroy], and
    [check] of an empty collection once more. *)
Inductive Interlude :=
  | MeanwhileOn (name : string) (l : Listener)
  | MeanwhileOff
  | MeanwhileClear
  | MeanwhileDestroy
  | MeanwhileCheckEmpty.

Definition meanwhile (i : Interlude) : M E unit :=
  match i with
  | MeanwhileOn name l => on name l
  | MeanwhileOff => off
  | MeanwhileClear => clear
  | MeanwhileDestroy => destroy
  | MeanwhileCheckEmpty => check []
  end.

Fixpoint interlude (between : list Interlude) : M E unit :=
  match between with
  | [] => ret tt
  | i :: rest => meanwhile i ;; interlude rest
  end.







(** The outcome of a run of handlers, in terms of the events delivered. *)
Record Delivered (m : Manager E) (events : list (nat * LoaderEvent E))
    (m' : Manager E) (log : list (Effect E)) : Prop := {
  delivered_options : options m' = options m;
  delivered_listeners : listeners m' = listeners m;
  delivered_totalCount : totalCount m' = totalCount m;
  delivered_length : length (elementInfos m') = length (elementInfos m);
  delivered_preReadyCount :
    preReadyCount m' =
      preReadyCount m + length (indicesOf countsPreReady events);
  delivered_readyCount :
    readyCount m' = readyCount m + length (indicesOf countsReady events);
  delivered_totalErrorCount :
    totalErrorCount m' =
      totalErrorCount m + length (indicesOf countsError events);
  delivered_batchPreReady :
    batchPreReadyCount log =
      firings (totalCount m) (preReadyCount m)
        (length (indicesOf countsPreReady events));
  delivered_batchReady :
    batchReadyCount log =
      firings (totalCount m) (readyCount m)
        (length (indicesOf countsReady events));
  delivered_infos :
    ∀ j, elementInfos m' !! j = infoAfter events j <$> elementInfos m !! j;
  delivered_addressed : Forall (addressed m) log;
}.
End Vocabulary.

(** ** Vocabulary of the further properties *)

Section Observations.
Context `{Dom E}.

(** The per-element events of the handler of a loader event on slot
    [index], whose entry was [info]: [error], or [preReadyElement] and
    [readyElement], with the payloads the handler reads off the fields after
    its bookkeeping; [readyElement] carries [isPreReadyOver] as it was when
    the handler began. *)
Definition preReadyElementEvent (index : nat) (info : ElementInfo.t E)
    (m : Manager E) : Event E :=
  EvPreReadyElement
    (OnPreReadyElement.mk (ElementInfo.element info) index
       (preReadyCount m) (readyCount m) (totalCount m)
       (isPreReady m) (isReady m) (ElementInfo.hasLoading info)).

Definition readyElementEvent (index : nat) (info : ElementInfo.t E)
    (over : bool) (m : Manager E) : Event E :=
  EvReadyElement
    (OnReadyElement.mk index (ElementInfo.element info)
       (ElementInfo.hasError info) (getErrorCount m) (totalErrorCount m)
       (preReadyCount m) (readyCount m) (totalCount m)
       (isPreReady m) (isReady m) (ElementInfo.hasLoading info) over).

Definition elementEvents (index : nat) (e : LoaderEvent E)
    (info : ElementInfo.t E) (m : Manager E) : list (Effect E) :=
  let m' := afterEvent index e info m in
  let info' := touch e info in
  match e with
  | LoaderError target =>
      [Trigger
         (EvError
            (OnError.mk (ElementInfo.element info) index target
               (getErrorCount m') (totalErrorCount m')))
         (handlersFor "error" m)]
  | LoaderPreReady _ =>
      [Trigger (preReadyElementEvent index info' m')
         (handlersFor "preReadyElement" m)]
  | LoaderReady withPreReady _ =>
      (if withPreReady
       then [Trigger (preReadyElementEvent index info' m')
               (handlersFor "preReadyElement" m)]
       else [])
      ++ [Trigger (readyElementEvent index info' (isPreReadyOver m) m')
            (handlersFor "readyElement" m)]
  end.

(** What the examples in the source print: [preReadyCount, totalCount] of
    every [preReadyElement], and [readyCount, index, totalCount] of every
    [readyElement], in the order of the log. *)
Definition preReadyElementCounts (log : list (Effect E)) : list (nat * nat) :=
  omap (λ eff, match eff with
               | Trigger (EvPreReadyElement e) _ =>
                   Some (OnPreReadyElement.preReadyCount _ e,
                         OnPreReadyElement.totalCount _ e)
               | _ => None
               end) log.

Definition readyElementCounts (log : list (Effect E))
    : list (nat * nat * nat) :=
  omap (λ eff, match eff with
               | Trigger (EvReadyElement e) _ =>
                   Some (OnReadyElement.readyCount _ e,
                         OnReadyElement.index _ e,
                         OnReadyElement.totalCount _ e)
               | _ => None
               end) log.

(** The slots and targets of the [error] events of a log. *)
Definition errorEvents (log : list (Effect E)) : list (nat * E) :=
  omap (λ eff, match eff with
               | Trigger (EvError e) _ =>
                   Some (OnError.index e, OnError.target e)
               | _ => None
               end) log.

Definition errorsOf (events : list (nat * LoaderEvent E)) : list (nat * E) :=
  omap (λ p, match p.2 with
             | LoaderError target => Some (p.1, target)
             | _ => None
             end) events.

(** The handlers the events of a log went to. *)
Definition calledHandlers (log : list (Effect E)) : list Listener :=
  log ≫= λ eff, match eff with
                 | Trigger _ handlers => handlers
                 | _ => []
                 end.

(** The loaders a log destroys. *)
Definition destroyedLoaders (log : list (Effect E)) : list (Loader E) :=
  omap (λ eff, match eff with
               | LoaderDestroy l => Some l
               | _ => None
               end) log.

(** The events that are no errors. *)
Definition withoutErrors (events : list (nat * LoaderEvent E))
    : list (nat * LoaderEvent E) :=
  List.filter (λ p, negb (countsError p.2)) events.

(** In slot order, the loaders of the elements whose slot has no [ready]
    among the events. *)
Definition unreadyLoaders (m : Manager E) (elements : list E)
    (events : list (nat * LoaderEvent E)) : list (Loader E) :=
  omap id
    (imap (λ j element,
             if bool_decide (j ∈ indicesOf countsReady events)
             then None else Some (loaderOf m element))
       elements).

(** The [hasLoading] a loader event reports ([error] reports none), and
    the one the loader of slot [j] reported last in a run. *)
Definition reportedLoading (e : LoaderEvent E) : option bool :=
  match e with
  | LoaderError _ => None
  | LoaderPreReady hasLoading => Some hasLoading
  | LoaderReady _ hasLoading => Some hasLoading
  end.

Definition lastLoading (events : list (nat * LoaderEvent E)) (j : nat)
    : option bool :=
  last (omap (λ p, if p.1 =? j then reportedLoading p.2 else None) events).

(** What a run of handlers lets its consumers see, in terms of the events
    delivered. *)
Record Observed (m : Manager E) (events : list (nat * LoaderEvent E))
    (m' : Manager E) (log : list (Effect E)) : Prop := {
  observed_preReadyElements :
    preReadyElementCounts log =
      (λ c, (c, totalCount m))
        <$> seq (S (preReadyCount m))
              (length (indicesOf countsPreReady events));
  observed_readyElements :
    readyElementCounts log =
      (λ ci, (ci.1, ci.2, totalCount m))
        <$> zip (seq (S (readyCount m))
                   (length (indicesOf countsReady events)))
                (indicesOf countsReady events);
  observed_errors : errorEvents log = errorsOf events;
  observed_isPreReadyOver :
    isPreReadyOver m' = isPreReadyOver m || (0 <? batchPreReadyCount log);
  observed_destroyed : destroyedLoaders log = [];
}.

End Observations.

(** ** Containers of the page

    The container [getLoader] makes for the [div], the same container once
    its loader has asked for its content elements, and the container of the
    [video], which has no loader registered and no content. *)
Module PageContainers.
Import Page.

Definition wiring : list (string * Request) :=
  [("requestChildren", CheckContentElements);
   ("reqeustReadyChildren", CheckChildren);
   ("requestDestroy", DestroyChildren)].

Definition nested : Manager Node :=
  setListeners [("error", ForwardError); ("ready", ForwardReady)]
    (clone imReady).

Definition divContainer : Container Node :=
  mkContainer (ContainerLoader Div {| loaderPrefix := "data-" |} true)
    Div (options imReady) wiring [Img1; Img2] ["img"] false nested [] [].

Definition videoContainer : Container Node :=
  mkContainer (ContainerLoader Video {| loaderPrefix := "data-" |} false)
    Video (options imReady) wiring [] ["img"] false nested [] [].

Definition divChecking : Container Node :=
  stepChildren
    (setListeners
       [("error", ForwardError); ("ready", ForwardReady);
        ("preReady", ForwardPreReady)]
       (checked nested [Img1; Img2]))
    (subscriptions nested [Img1; Img2] 0)
    divContainer.

(** [orderly] with its first two events the other way round. *)
Definition reordered : list (nat * LoaderEvent Node) :=
  [(1, LoaderError Img2); (0, LoaderPreReady false);
   (1, LoaderReady true false); (0, LoaderReady false false)].
(** Two images report the loading attribute; the first withdraws it when
    it becomes ready. *)
Definition withdrawn : list (nat * LoaderEvent Node) :=
  [(0, LoaderPreReady true); (1, LoaderPreReady true);
   (0, LoaderReady false false)].



End PageContainers.

(** ** Properties *)

(** Unfolding a method down to the monad, and reading the slot the run is
    about. *)
Ltac unfold_methods :=
  unfold onLoaderEvent, onError, onPreReadyElement, onPreReady,
    onReadyElement, onReady, checkPreReady, checkReady, updateInfo, withInfo,
    infoAt, trigger, when, andThen, bind, get, modify, emit, ret;
  cbn -[Nat.ltb Nat.leb].

Ltac lookup_slot Hi :=
  repeat first
    [ rewrite Hi; cbn -[Nat.ltb Nat.leb]
    | rewrite list_lookup_insert_eq
        by (rewrite ?length_insert; eapply lookup_lt_Some; exact Hi);
      cbn -[Nat.ltb Nat.leb]
    | rewrite list_insert_insert_eq; cbn -[Nat.ltb Nat.leb] ].

Section Properties.
Context `{Dom E}.
Implicit Type m : Manager E.
Implicit Type info : ElementInfo.t E.

(** *** Running a method *)

Lemma bind_run {A B} (c : M E A) (k : A → M E B) m a m1 log1 :
  c m = Some (a, m1, log1) →
  bind c k m =
    match k a m1 with
    | None => None
    | Some (b, m2, log2) => Some (b, m2, log1 ++ log2)
    end.
Proof. intros Hc. unfold bind. by rewrite Hc. Qed.

Lemma bind_throws {A B} (c : M E A) (k : A → M E B) m :
  c m = None → bind c k m = None.
Proof. intros Hc. unfold bind. by rewrite Hc. Qed.

Lemma bind_ret_run {A B} (c : M E A) (k : A → M E B) m a :
  c m = Some (a, m, []) → bind c k m = k a m.
Proof.
  intros Hc. rewrite (bind_run _ _ _ _ _ _ Hc).
  by destruct (k a m) as [[[b m2] log2]|].
Qed.

Lemma withInfo_run {A} (k : ElementInfo.t E → M E A) m index info :
  elementInfos m !! index = Some info →
  withInfo index k m = k info m.
Proof.
  intros Hi. unfold withInfo, infoAt, bind, get, ret. cbn.
  rewrite Hi. by destruct (k info m) as [[[b m2] log2]|].
Qed.

Lemma withInfo_out_of_range {A} (k : ElementInfo.t E → M E A) m index :
  elementInfos m !! index = None →
  withInfo index k m = None.
Proof.
  intros Hi. unfold withInfo, infoAt, bind, get, ret. cbn. by rewrite Hi.
Qed.

Lemma updateInfo_run (f : ElementInfo.t E → ElementInfo.t E) m index info :
  elementInfos m !! index = Some info →
  updateInfo index f m =
    Some (tt, setElementInfos (<[index := f info]> (elementInfos m)) m, []).
Proof. intros Hi. unfold updateInfo. by rewrite (withInfo_run _ _ _ _ Hi). Qed.

Lemma lookup_updated m index info x :
  elementInfos m !! index = Some info →
  elementInfos (setElementInfos (<[index := x]> (elementInfos m)) m) !! index
    = Some x.
Proof.
  intros Hi. cbn. apply list_lookup_insert_eq. by eapply lookup_lt_Some.
Qed.

(** *** [clear], [destroy], [check] in closed form *)

Lemma destroyUnfinished_run (infos : list (ElementInfo.t E)) m :
  destroyUnfinished infos m =
    Some (tt, m, LoaderDestroy <$> unfinishedLoaders infos).
Proof.
  induction infos as [|info infos IH]; [done|].
  cbn [destroyUnfinished]. unfold unfinishedLoaders. cbn [omap list_omap].
  destruct (ElementInfo.isReady info), (ElementInfo.loader info) as [l|];
    unfold bind, emit, ret; cbn; rewrite IH; done.
Qed.

Lemma clear_run m :
  clear m =
    Some (tt, cleared m, LoaderDestroy <$> unfinishedLoaders (elementInfos m)).
Proof.
  unfold clear, bind, modify, get. cbn.
  rewrite destroyUnfinished_run. cbn. by rewrite app_nil_r.
Qed.

Lemma destroy_run m :
  destroy m =
    Some (tt, setListeners [] (cleared m),
          LoaderDestroy <$> unfinishedLoaders (elementInfos m)).
Proof.
  unfold destroy, off. rewrite (bind_run _ _ _ _ _ _ (clear_run m)).
  cbn. by rewrite app_nil_r.
Qed.

Lemma getLoader_options m m' element opts :
  options m = options m' → getLoader m element opts = getLoader m' element opts.
Proof. intros Ho. unfold getLoader, clone. by rewrite Ho. Qed.

Lemma getLoader_loaderOf m element cell :
  getLoader m element {| loaderPrefix := prefix (options m) |} = Some cell →
  cellLoader cell = loaderOf m element.
Proof.
  unfold getLoader, loaderOf, querySelectorAll.
  destruct (getProperty _ _); [by intros [= <-]|].
  destruct (isSelectorList _); [by intros [= <-]|done].
Qed.

Lemma resolves_spec m element :
  resolves m element = true ↔
  is_Some (getProperty (toLowerCase (tagName element)) (loaders (options m)))
  ∨ isSelectorList (join ", " (keys (loaders (options m)))) = true.
Proof.
  unfold resolves, getLoader, querySelectorAll.
  destruct (getProperty _ _) as [cls|].
  - split; [|done]. intros _. left. by exists cls.
  - destruct (isSelectorList _).
    + split; [by right|done].
    + split; [done|]. by intros [[? ?]|?].
Qed.

Lemma checkable_spec m (elements : list E) :
  checkable m elements = true ↔
  ∀ element, element ∈ elements → resolves m element = true.
Proof.
  unfold checkable. rewrite forallb_forall.
  split; intros Hall element Hin; apply Hall; by apply list_elem_of_In.
Qed.

Lemma checkable_selector m (elements : list E) :
  isSelectorList (join ", " (keys (loaders (options m)))) = true →
  checkable m elements = true.
Proof.
  intros Hsel. apply checkable_spec. intros element _.
  apply resolves_spec. by right.
Qed.

Lemma checkable_options m m' (elements : list E) :
  options m' = options m → checkable m' elements = checkable m elements.
Proof.
  intros Ho. unfold checkable.
  induction elements as [|element rest IH]; [done|]. cbn. rewrite IH.
  unfold resolves. by rewrite Ho, (getLoader_options m' m _ _ Ho).
Qed.

Lemma mapIndexed_run m0 m (elements : list E) index :
  options m = options m0 →
  checkable m0 elements = true →
  mapIndexed (λ element index,
      m <- get ;;
      cell <- called
        (getLoader m element {| loaderPrefix := prefix (options m0) |}) ;;
      let loader := cellLoader cell in
      emit (LoaderCheck loader) ;;
      emit (LoaderSubscribe loader index) ;;
      ret (ElementInfo.mk (Some loader) element false false false false))
    elements index m
  = Some (freshInfo m0 <$> elements, m, subscriptions m0 elements index).
Proof.
  intros Ho. revert index.
  induction elements as [|element rest IH]; intros index Hc; [done|].
  cbn in Hc. apply andb_prop in Hc as [Hr Hc]. unfold resolves in Hr.
  destruct (getLoader m0 element _) as [cell|] eqn:Hcell; [|done].
  cbn [mapIndexed]. unfold bind at 1. unfold bind at 1. cbn.
  rewrite (getLoader_options m m0 _ _ Ho), Hcell. cbn.
  unfold bind at 1. rewrite (IH _ Hc). cbn.
  unfold freshInfo. rewrite (getLoader_loaderOf _ _ _ Hcell).
  by rewrite app_nil_r.
Qed.

Lemma mapIndexed_throws m0 m (elements : list E) index :
  options m = options m0 →
  checkable m0 elements = false →
  mapIndexed (λ element index,
      m <- get ;;
      cell <- called
        (getLoader m element {| loaderPrefix := prefix (options m0) |}) ;;
      let loader := cellLoader cell in
      emit (LoaderCheck loader) ;;
      emit (LoaderSubscribe loader index) ;;
      ret (ElementInfo.mk (Some loader) element false false false false))
    elements index m
  = None.
Proof.
  intros Ho. revert index.
  induction elements as [|element rest IH]; intros index Hc; [done|].
  cbn in Hc. unfold resolves in Hc at 1.
  cbn [mapIndexed]. unfold bind at 1. unfold bind at 1. cbn.
  rewrite (getLoader_options m m0 _ _ Ho).
  destruct (getLoader m0 element _) as [cell|] eqn:Hcell; [|done].
  cbn in *. unfold bind at 1. by rewrite (IH _ Hc).
Qed.

Lemma check_run m (elements : list E) :
  checkable m elements = true →
  check elements m =
    Some (tt, checked m elements,
          (LoaderDestroy <$> unfinishedLoaders (elementInfos m))
          ++ subscriptions m elements 0
          ++ (if length elements =? 0 then [SetTimeout EmptyBatchTask] else [])).
Proof.
  intros Hc. unfold check.
  rewrite (bind_ret_run get _ m m eq_refl).
  rewrite (bind_run _ _ _ _ _ _ (clear_run m)).
  unfold toArray.
  rewrite (bind_run _ _ _ _ _ _
             (mapIndexed_run m (cleared m) elements 0 eq_refl Hc)).
  unfold bind, modify, get, when, emit, ret. cbn.
  rewrite length_fmap. unfold checked.
  destruct (length elements =? 0); cbn; by rewrite ?app_nil_r.
Qed.

(** [check] throws exactly when [getLoader] does for one of the elements;
    [clear()] has run by then. *)
Lemma check_throws m (elements : list E) :
  checkable m elements = false → check elements m = None.
Proof.
  intros Hc. unfold check.
  rewrite (bind_ret_run get _ m m eq_refl).
  rewrite (bind_run _ _ _ _ _ _ (clear_run m)).
  unfold toArray.
  by rewrite (bind_throws _ _ _
                (mapIndexed_throws m (cleared m) elements 0 eq_refl Hc)).
Qed.

Lemma check_returns_iff m (elements : list E) :
  is_Some (check elements m) ↔ checkable m elements = true.
Proof.
  destruct (checkable m elements) eqn:Hc.
  - rewrite (check_run _ _ Hc). split; [done|]. by eexists.
  - rewrite (check_throws _ _ Hc). split; [by intros [? ?]|done].
Qed.

(** *** The private methods in closed form *)

Lemma checkPreReady_run m index info :
  elementInfos m !! index = Some info →
  checkPreReady index m =
    Some (negb (S (preReadyCount m) <? totalCount m),
          setPreReadyCount (S (preReadyCount m))
            (setElementInfos
               (<[index := ElementInfo.setIsPreReady true info]>
                  (elementInfos m)) m),
          []).
Proof.
  intros Hi. unfold_methods. lookup_slot Hi.
  by destruct (S (preReadyCount m) <? totalCount m).
Qed.

Lemma checkReady_run m index info :
  elementInfos m !! index = Some info →
  checkReady index m =
    Some (negb (S (readyCount m) <? totalCount m),
          setReadyCount (S (readyCount m))
            (setElementInfos
               (<[index := ElementInfo.setIsReady true info]>
                  (elementInfos m)) m),
          []).
Proof.
  intros Hi. unfold_methods. lookup_slot Hi.
  by destruct (S (readyCount m) <? totalCount m).
Qed.

Lemma onError_run m index target info :
  elementInfos m !! index = Some info →
  let infos := <[index := ElementInfo.setHasError true info]> (elementInfos m) in
  onError index target m =
    Some (tt,
          setTotalErrorCount (S (totalErrorCount m)) (setElementInfos infos m),
          [Trigger
             (EvError
                (OnError.mk (ElementInfo.element info) index target
                   (length (List.filter ElementInfo.hasError infos))
                   (S (totalErrorCount m))))
             (handlersFor "error" m)]).
Proof. intros Hi. unfold_methods. by lookup_slot Hi. Qed.

Lemma onPreReady_run m :
  onPreReady m =
    Some (tt, setIsPreReadyOver true m,
          [Trigger
             (EvPreReady
                (OnPreReady.mk (readyCount m) (totalCount m) (isReady m)
                   (hasLoading m)))
             (handlersFor "preReady" m)]).
Proof. done. Qed.

Lemma onReady_run m :
  onReady m =
    Some (tt, m,
          [Trigger
             (EvReady
                (OnReady.mk (getErrorCount m) (totalErrorCount m)
                   (totalCount m)))
             (handlersFor "ready" m)]).
Proof. done. Qed.

Lemma onLoaderEvent_run m index e info :
  elementInfos m !! index = Some info →
  let m' := afterEvent index e info m in
  ∃ perElement,
    onLoaderEvent index e m =
      Some (tt, m',
            perElement
            ++ (if firesPreReady e m
                then [Trigger (EvPreReady (preReadyPayload m'))
                        (handlersFor "preReady" m)]
                else [])
            ++ (if firesReady e m
                then [Trigger (EvReady (readyPayload m'))
                        (handlersFor "ready" m)]
                else []))
    ∧ quiet perElement
    ∧ Forall (addressed m) perElement.
Proof.
  intros Hi. destruct m as [o r p t te over infos ls]. cbn in Hi.
  unfold afterEvent, firesPreReady, firesReady, quiet, preReadyPayload,
    readyPayload.
  destruct e as [target|hasL|[|] hasL].
  - eexists [_]. split.
    + unfold_methods. lookup_slot Hi. reflexivity.
    + split; [done|]. repeat constructor.
  - eexists [_]. split.
    + unfold_methods. lookup_slot Hi. rewrite (Nat.ltb_antisym t).
      destruct (t <=? S p); cbn; lookup_slot Hi; reflexivity.
    + split; [done|]. repeat constructor.
  - eexists [_; _]. split.
    + unfold_methods. lookup_slot Hi. rewrite (Nat.ltb_antisym t).
      destruct (t <=? S p); cbn -[Nat.ltb Nat.leb]; lookup_slot Hi;
        rewrite (Nat.ltb_antisym t);
        destruct (t <=? S r); cbn; lookup_slot Hi; reflexivity.
    + split; [done|]. repeat constructor.
  - eexists [_]. split.
    + unfold_methods. lookup_slot Hi. rewrite (Nat.ltb_antisym t).
      destruct (t <=? S r); cbn; lookup_slot Hi; reflexivity.
    + split; [done|]. repeat constructor.
Qed.

(** *** Delivering a sequence of loader events *)

Lemma batchPreReadyCount_app (l1 l2 : list (Effect E)) :
  batchPreReadyCount (l1 ++ l2) = batchPreReadyCount l1 + batchPreReadyCount l2.
Proof.
  unfold batchPreReadyCount. by rewrite List.filter_app, length_app.
Qed.

Lemma batchReadyCount_app (l1 l2 : list (Effect E)) :
  batchReadyCount (l1 ++ l2) = batchReadyCount l1 + batchReadyCount l2.
Proof.
  unfold batchReadyCount. by rewrite List.filter_app, length_app.
Qed.

Lemma quiet_app (l1 l2 : list (Effect E)) :
  quiet l1 → quiet l2 → quiet (l1 ++ l2).
Proof.
  unfold quiet. rewrite batchPreReadyCount_app, batchReadyCount_app. lia.
Qed.

Lemma deliver_app_run (ev1 ev2 : list (nat * LoaderEvent E)) m m1 log1 :
  deliver ev1 m = Some (tt, m1, log1) →
  deliver (ev1 ++ ev2) m =
    match deliver ev2 m1 with
    | None => None
    | Some (u, m2, log2) => Some (u, m2, log1 ++ log2)
    end.
Proof.
  revert m m1 log1.
  induction ev1 as [|[index e] ev1 IH]; intros m m1 log1 Hrun.
  - cbn in Hrun. injection Hrun as <- <-. cbn.
    by destruct (deliver ev2 m) as [[[[] m2] log2]|].
  - cbn [deliver app] in *. unfold bind in *.
    destruct (onLoaderEvent index e m) as [[[[] ma] loga]|]; [|done].
    destruct (deliver ev1 ma) as [[[[] mb] logb]|] eqn:Hrest; [|done].
    injection Hrun as <- <-.
    rewrite (IH _ _ _ Hrest).
    destruct (deliver ev2 mb) as [[[[] m2] log2]|]; [|done].
    by rewrite !app_assoc.
Qed.

Lemma indicesOf_cons kind index (e : LoaderEvent E) events :
  indicesOf kind ((index, e) :: events) =
    (if kind e then [index] else []) ++ indicesOf kind events.
Proof. unfold indicesOf. cbn. by destruct (kind e). Qed.

Lemma indicesOf_app kind (ev1 ev2 : list (nat * LoaderEvent E)) :
  indicesOf kind (ev1 ++ ev2) = indicesOf kind ev1 ++ indicesOf kind ev2.
Proof. unfold indicesOf. by rewrite List.filter_app, fmap_app. Qed.

Lemma deliver_run (events : list (nat * LoaderEvent E)) m :
  inBatch (length (elementInfos m)) events = true →
  ∃ m' log, deliver events m = Some (tt, m', log) ∧ Delivered m events m' log.
Proof.
  revert m. induction events as [|[index e] events IH]; intros m Hin.
  - exists m, []. split; [done|].
    split; cbn; unfold firings; try lia; try done.
    intros j. by destruct (elementInfos m !! j).
  - cbn in Hin. apply andb_prop in Hin as [Hi Hin].
    apply Nat.ltb_lt in Hi.
    destruct (lookup_lt_is_Some_2 _ _ Hi) as [info Hinfo].
    destruct (onLoaderEvent_run m index e info Hinfo)
      as (per & Hrun & Hq & Hper).
    set (m1 := afterEvent index e info m) in *.
    assert (Hlen : length (elementInfos m1) = length (elementInfos m))
      by (cbn; apply length_insert).
    destruct (IH m1) as (m' & log & Hrest & D); [by rewrite Hlen|].
    destruct D.
    eexists m', _. split.
    + cbn [deliver]. rewrite (bind_run _ _ _ _ _ _ Hrun), Hrest. reflexivity.
    + destruct Hq as [Hq1 Hq2].
      split; rewrite ?indicesOf_cons, ?length_app;
        rewrite ?batchPreReadyCount_app, ?batchReadyCount_app, ?Hq1, ?Hq2;
        try (cbn in *; congruence).
      * rewrite delivered_preReadyCount0. cbn.
        destruct (countsPreReady e); cbn; lia.
      * rewrite delivered_readyCount0. cbn.
        destruct (countsReady e); cbn; lia.
      * rewrite delivered_totalErrorCount0. cbn.
        destruct (countsError e); cbn; lia.
      * rewrite delivered_batchPreReady0. unfold firesPreReady, firesReady.
        cbn -[Nat.leb]. unfold firings.
        destruct (countsPreReady e), (countsReady e); cbn -[Nat.leb];
          try destruct (Nat.leb_spec (totalCount m) (S (preReadyCount m)));
          try destruct (Nat.leb_spec (totalCount m) (S (readyCount m)));
          cbn; lia.
      * rewrite delivered_batchReady0. unfold firesPreReady, firesReady.
        cbn -[Nat.leb]. unfold firings.
        destruct (countsPreReady e), (countsReady e); cbn -[Nat.leb];
          try destruct (Nat.leb_spec (totalCount m) (S (preReadyCount m)));
          try destruct (Nat.leb_spec (totalCount m) (S (readyCount m)));
          cbn; lia.
      * intros j. rewrite delivered_infos0. cbn.
        destruct (decide (index = j)) as [->|Hne].
        -- rewrite list_lookup_insert_eq by done. rewrite Hinfo. cbn.
           by rewrite Nat.eqb_refl.
        -- rewrite list_lookup_insert_ne by done.
           destruct (elementInfos m !! j) as [x|]; [|done]. cbn.
           by rewrite (proj2 (Nat.eqb_neq index j) Hne).
      * assert (Hls : ∀ eff, addressed m1 eff → addressed m eff).
        { intros [| | |ev handlers|]; try done. }
        rewrite !Forall_app. split; [split; [done|split]|].
        -- destruct (firesPreReady e m); repeat constructor.
        -- destruct (firesReady e m); repeat constructor.
        -- eapply Forall_impl; [exact delivered_addressed0|exact Hls].
Qed.

(** *** The queries *)

Lemma isPreReady_Forall m :
  isPreReady m = true ↔
  ∀ info, info ∈ elementInfos m → ElementInfo.isPreReady info = true.
Proof.
  unfold isPreReady. rewrite forallb_forall.
  split; intros Hall info Hin; apply Hall; by apply list_elem_of_In.
Qed.

Lemma isReady_Forall m :
  isReady m = true ↔
  ∀ info, info ∈ elementInfos m → ElementInfo.isReady info = true.
Proof.
  unfold isReady. rewrite forallb_forall.
  split; intros Hall info Hin; apply Hall; by apply list_elem_of_In.
Qed.

(** C8.  [isPreReady()] is true exactly when every entry of the current
    [elementInfos] array has [isPreReady] set, and [isReady()] exactly when
    every entry has [isReady] set.  Both are functions of the array alone:
    no counter and no cached flag of the manager enters the answer, so on
    any fields, also in the middle of a batch, they describe the entries as
    they are. *)
Theorem isPreReady_isReady_recomputed m :
  (isPreReady m = true ↔
     ∀ info, info ∈ elementInfos m → ElementInfo.isPreReady info = true)
  ∧ (isReady m = true ↔
     ∀ info, info ∈ elementInfos m → ElementInfo.isReady info = true)
  ∧ (∀ m', elementInfos m' = elementInfos m →
       isPreReady m' = isPreReady m ∧ isReady m' = isReady m)
  ∧ (∀ index info b, elementInfos m !! index = Some info →
       let m' :=
         setElementInfos
           (<[index := ElementInfo.setIsPreReady b info]> (elementInfos m)) m in
       isPreReady m' = true → b = true).
Proof.
  split; [apply isPreReady_Forall|].
  split; [apply isReady_Forall|].
  split.
  - intros m' Heq. unfold isPreReady, isReady. by rewrite Heq.
  - intros index info b Hi m' Hall.
    apply (proj1 (isPreReady_Forall m')) with
      (info := ElementInfo.setIsPreReady b info) in Hall; [done|].
    apply list_elem_of_lookup. exists index.
    by apply (lookup_updated m index info).
Qed.

(** C10.  On a manager whose [elementInfos] is empty, [isPreReady()] and
    [isReady()] are both true although no resource has been counted: so it is
    right after construction (where [isPreReadyOver] starts as true and the
    counters as 0), after [clear()], after [destroy()], and after [check()]
    of an empty collection. *)
Theorem empty_manager_is_vacuously_ready (o : PartialOptions) m :
  (let fresh : Manager E := constructor o in
   isPreReady fresh = true ∧ isReady fresh = true
   ∧ isPreReadyOver fresh = true
   ∧ elementInfos fresh = []
   ∧ preReadyCount fresh = 0 ∧ readyCount fresh = 0)
  ∧ (∃ m' log, clear m = Some (tt, m', log)
       ∧ elementInfos m' = [] ∧ isPreReady m' = true ∧ isReady m' = true
       ∧ preReadyCount m' = 0 ∧ readyCount m' = 0)
  ∧ (∃ m' log, destroy m = Some (tt, m', log)
       ∧ elementInfos m' = [] ∧ isPreReady m' = true ∧ isReady m' = true
       ∧ preReadyCount m' = 0 ∧ readyCount m' = 0)
  ∧ (∃ m' log, check [] m = Some (tt, m', log)
       ∧ elementInfos m' = [] ∧ isPreReady m' = true ∧ isReady m' = true
       ∧ preReadyCount m' = 0 ∧ readyCount m' = 0).
Proof.
  split; [done|].
  split; [|split].
  - eexists _, _. split; [apply clear_run|done].
  - eexists _, _. split; [apply destroy_run|done].
  - eexists _, _. split; [by apply check_run|done].
Qed.

(** *** [clear] and [destroy] *)

Lemma elem_of_unfinishedLoaders (infos : list (ElementInfo.t E)) l :
  l ∈ unfinishedLoaders infos ↔
  ∃ info, info ∈ infos ∧ ElementInfo.isReady info = false
          ∧ ElementInfo.loader info = Some l.
Proof.
  unfold unfinishedLoaders. rewrite list_elem_of_omap.
  split; intros (info & Hin & Hl); exists info.
  - destruct (ElementInfo.isReady info); [done|]. by split.
  - destruct Hl as [-> ->]. by split.
Qed.

(** C6.  [clear()] sets [isPreReadyOver] to false, sets [totalCount],
    [preReadyCount], [readyCount] and [totalErrorCount] to 0, calls
    [destroy()] on the loader of every entry whose [isReady] is false, in the
    order of the array, and on no other loader, and empties [elementInfos];
    the options and the manager's listeners stay.  [destroy()] does the same
    and leaves the manager without listeners. *)
Theorem clear_and_destroy m :
  ∃ m',
    clear m =
      Some (tt, m', LoaderDestroy <$> unfinishedLoaders (elementInfos m))
    ∧ isPreReadyOver m' = false
    ∧ totalCount m' = 0 ∧ preReadyCount m' = 0 ∧ readyCount m' = 0
    ∧ totalErrorCount m' = 0
    ∧ elementInfos m' = []
    ∧ options m' = options m ∧ listeners m' = listeners m
    ∧ (∀ l, l ∈ unfinishedLoaders (elementInfos m) ↔
            ∃ info, info ∈ elementInfos m
                    ∧ ElementInfo.isReady info = false
                    ∧ ElementInfo.loader info = Some l)
    ∧ destroy m =
        Some (tt, setListeners [] m',
              LoaderDestroy <$> unfinishedLoaders (elementInfos m))
    ∧ listeners (setListeners [] m') = []
    ∧ (∀ e, trigger e (setListeners [] m') =
            Some (tt, setListeners [] m', [Trigger e []])).
Proof.
  exists (cleared m). split; [apply clear_run|].
  do 8 (split; [done|]).
  split; [apply elem_of_unfinishedLoaders|].
  split; [apply destroy_run|]. done.
Qed.

(** *** [totalCount] *)

Lemma onLoaderEvent_out_of_range m index e :
  elementInfos m !! index = None → onLoaderEvent index e m = None.
Proof.
  intros Hi. destruct e; unfold_methods; by rewrite Hi.
Qed.

Lemma perform_totalCount (op : Operation) m u m' log :
  perform op m = Some (u, m', log) → totalCount m' = totalCount m.
Proof.
  destruct op
    as [index e|[]|name l| |index|index|index target|index| |index| ];
    cbn [perform runTask].
  - destruct (elementInfos m !! index) as [info|] eqn:Hi.
    + destruct (onLoaderEvent_run m index e info Hi) as (per & Hrun & _).
      rewrite Hrun. by intros [= <- <-].
    + by rewrite onLoaderEvent_out_of_range.
  - unfold_methods. by intros [= <- <-].
  - unfold on, modify. by intros [= <- <-].
  - unfold off, modify. by intros [= <- <-].
  - destruct (elementInfos m !! index) as [info|] eqn:Hi.
    + rewrite (bind_run _ _ _ _ _ _ (checkPreReady_run m index info Hi)).
      unfold ret. by intros [= <- <-].
    + unfold_methods. by rewrite Hi.
  - destruct (elementInfos m !! index) as [info|] eqn:Hi.
    + rewrite (bind_run _ _ _ _ _ _ (checkReady_run m index info Hi)).
      unfold ret. by intros [= <- <-].
    + unfold_methods. by rewrite Hi.
  - destruct (elementInfos m !! index) as [info|] eqn:Hi.
    + rewrite (onError_run m index target info Hi). by intros [= <- <-].
    + unfold_methods. by rewrite Hi.
  - unfold_methods. destruct (elementInfos m !! index); [|done].
    by intros [= <- <-].
  - unfold_methods. by intros [= <- <-].
  - unfold_methods. destruct (elementInfos m !! index); [|done].
    by intros [= <- <-].
  - unfold_methods. by intros [= <- <-].
Qed.

Lemma performAll_totalCount (ops : list Operation) m u m' log :
  performAll ops m = Some (u, m', log) → totalCount m' = totalCount m.
Proof.
  revert m log. induction ops as [|op ops IH]; intros m log.
  - cbn. unfold ret. by intros [= <- <-].
  - cbn [performAll]. unfold bind.
    destruct (perform op m) as [[[[] m1] log1]|] eqn:Hop; [|done].
    destruct (performAll ops m1) as [[[[] m2] log2]|] eqn:Hrest; [|done].
    intros [= <- <- <-].
    rewrite (IH _ _ Hrest). by eapply perform_totalCount.
Qed.

(** C5 (amended).  A [check(elements)] that returns -- [getLoader] finds
    for every element a registered loader or a selector list for its
    container -- sets [totalCount] to the number of elements it is given,
    whatever the fields were before; [getTotalCount()] returns it; and it is
    still the value after any sequence of operations that contains no
    [check], [clear] or [destroy]: handlers of loader events, the timer of
    the empty batch, [on] and [off], and the private methods. *)
Theorem totalCount_fixed_by_check m (elements : list E) :
  checkable m elements = true →
  ∃ m' log,
    check elements m = Some (tt, m', log)
    ∧ totalCount m' = length elements
    ∧ getTotalCount m' = length elements
    ∧ ∀ (ops : list Operation) m'' log',
        performAll ops m' = Some (tt, m'', log') →
        getTotalCount m'' = length elements.
Proof.
  intros Hc. eexists _, _. split; [by apply check_run|].
  split; [done|]. split; [done|].
  intros ops m'' log' Hrun. unfold getTotalCount.
  by rewrite (performAll_totalCount _ _ _ _ _ Hrun).
Qed.

(** A manager between batches: nothing to wait for, nothing counted. *)
Lemma interlude_run (between : list Interlude) m :
  totalCount m = 0 → readyCount m = 0 → totalErrorCount m = 0 →
  elementInfos m = [] →
  ∃ m' log,
    interlude between m = Some (tt, m', log)
    ∧ List.filter isTrigger log = []
    ∧ totalCount m' = 0 ∧ readyCount m' = 0 ∧ totalErrorCount m' = 0
    ∧ elementInfos m' = [].
Proof.
  revert m. induction between as [|i rest IH]; intros m Ht Hr He Hi.
  { by exists m, []. }
  assert (Hstep : ∃ m1 log1,
            meanwhile i m = Some (tt, m1, log1)
            ∧ List.filter isTrigger log1 = []
            ∧ totalCount m1 = 0 ∧ readyCount m1 = 0 ∧ totalErrorCount m1 = 0
            ∧ elementInfos m1 = []).
  { destruct i as [name l| | | |]; cbn [meanwhile].
    - by eexists _, _.
    - by eexists _, _.
    - eexists _, _. split; [apply clear_run|]. by rewrite Hi.
    - eexists _, _. split; [apply destroy_run|]. by rewrite Hi.
    - eexists _, _. split; [by apply check_run|]. by rewrite Hi. }
  destruct Hstep as (m1 & log1 & Hrun1 & Hq1 & Ht1 & Hr1 & He1 & Hi1).
  destruct (IH m1 Ht1 Hr1 He1 Hi1)
    as (m' & log & Hrun & Hq & Ht' & Hr' & He' & Hi').
  exists m', (log1 ++ log). split.
  - cbn [interlude]. by rewrite (bind_run _ _ _ _ _ _ Hrun1), Hrun.
  - by rewrite List.filter_app, Hq1, Hq.
Qed.

(** C3 (amended).  [check()] of an empty collection leaves [totalCount] at
    0 and triggers nothing during the call: besides the [destroy()] of the
    unfinished loaders of the batch it replaces, its only effect is the
    [setTimeout] of a callback.  The callback triggers [preReady] and then
    [ready] with what the fields hold when it runs.  When nothing but [on],
    [off], [clear], [destroy] and further empty [check]s ran in between --
    no [check] of a non-empty collection -- the payload of [ready] carries
    [totalCount = 0], [errorCount = 0] and [totalErrorCount = 0], and the
    handlers subscribed by then are those called. *)
Theorem check_empty_batch m (between : list Interlude) :
  ∃ m1 log1 m2 log2,
    check [] m = Some (tt, m1, log1)
    ∧ totalCount m1 = 0
    ∧ log1 = (LoaderDestroy <$> unfinishedLoaders (elementInfos m))
             ++ [SetTimeout EmptyBatchTask]
    ∧ List.filter isTrigger log1 = []
    ∧ interlude between m1 = Some (tt, m2, log2)
    ∧ List.filter isTrigger log2 = []
    ∧ runTask EmptyBatchTask m2 =
        Some (tt, setIsPreReadyOver true m2,
              [Trigger (EvPreReady (OnPreReady.mk 0 0 true false))
                 (handlersFor "preReady" m2);
               Trigger (EvReady (OnReady.mk 0 0 0))
                 (handlersFor "ready" m2)]).
Proof.
  destruct (interlude_run between (checked m []))
    as (m2 & log2 & Hrun & Hq & Ht & Hr & He & Hi); try done.
  exists (checked m []). eexists. exists m2, log2.
  split; [by apply check_run|].
  split; [done|]. split; [done|]. split.
  { cbn. rewrite List.filter_app. cbn. rewrite app_nil_r.
    induction (unfinishedLoaders (elementInfos m)) as [|l ls IH]; [done|].
    by cbn. }
  split; [done|]. split; [done|].
  cbn [runTask].
  rewrite (bind_run _ _ _ _ _ _ (onPreReady_run m2)), onReady_run.
  unfold isReady, hasLoading, getErrorCount. cbn.
  by rewrite Ht, Hr, He, Hi.
Qed.

(** *** The entries after a run of handlers *)

Lemma infoAfter_cons index (e : LoaderEvent E) events j info :
  infoAfter ((index, e) :: events) j info =
    infoAfter events j (if index =? j then touch e info else info).
Proof. done. Qed.

Lemma infoAfter_isPreReady events j info :
  ElementInfo.isPreReady (infoAfter events j info) =
    ElementInfo.isPreReady info
    || bool_decide (j ∈ indicesOf countsPreReady events).
Proof.
  revert info. induction events as [|[index e] events IH]; intros info.
  - cbn. by rewrite orb_false_r.
  - rewrite infoAfter_cons, IH, indicesOf_cons.
    destruct (Nat.eqb_spec index j) as [->|Hne].
    + destruct e as [t|h|[|] h]; cbn;
        rewrite ?bool_decide_eq_true_2 by (by left);
        rewrite ?orb_true_r; done.
    + destruct (countsPreReady e); cbn; [|done].
      f_equal. apply bool_decide_ext. rewrite elem_of_cons.
      split; [by right|]. by intros [->|].
Qed.

Lemma infoAfter_isReady events j info :
  ElementInfo.isReady (infoAfter events j info) =
    ElementInfo.isReady info
    || bool_decide (j ∈ indicesOf countsReady events).
Proof.
  revert info. induction events as [|[index e] events IH]; intros info.
  - cbn. by rewrite orb_false_r.
  - rewrite infoAfter_cons, IH, indicesOf_cons.
    destruct (Nat.eqb_spec index j) as [->|Hne].
    + destruct e as [t|h|[|] h]; cbn;
        rewrite ?bool_decide_eq_true_2 by (by left);
        rewrite ?orb_true_r; done.
    + destruct (countsReady e); cbn; [|done].
      f_equal. apply bool_decide_ext. rewrite elem_of_cons.
      split; [by right|]. by intros [->|].
Qed.

Lemma infoAfter_hasError events j info :
  ElementInfo.hasError (infoAfter events j info) =
    ElementInfo.hasError info
    || bool_decide (j ∈ indicesOf countsError events).
Proof.
  revert info. induction events as [|[index e] events IH]; intros info.
  - cbn. by rewrite orb_false_r.
  - rewrite infoAfter_cons, IH, indicesOf_cons.
    destruct (Nat.eqb_spec index j) as [->|Hne].
    + destruct e as [t|h|[|] h]; cbn;
        rewrite ?bool_decide_eq_true_2 by (by left);
        rewrite ?orb_true_r; done.
    + destruct (countsError e); cbn; [|done].
      f_equal. apply bool_decide_ext. rewrite elem_of_cons.
      split; [by right|]. by intros [->|].
Qed.

(** Counting the entries with a flag is counting the slots that carry it. *)
Lemma filter_length_by_index {A} (f : A → bool) (P : nat → Prop)
    `{∀ j, Decision (P j)} (l : list A) (s : nat) :
  (∀ j x, l !! j = Some x → (f x = true ↔ P (s + j))) →
  length (List.filter f l) = length (filter P (seq s (length l))).
Proof.
  revert s. induction l as [|a l IH]; intros s Hfl; [done|].
  cbn [List.filter length seq]. rewrite filter_cons.
  assert (Htail : ∀ j x, l !! j = Some x → (f x = true ↔ P (S s + j))).
  { intros j x Hj. rewrite (Hfl (S j) x Hj). by rewrite Nat.add_succ_r. }
  specialize (Hfl 0 a eq_refl). rewrite Nat.add_0_r in Hfl.
  destruct (f a) eqn:Hfa; destruct (decide (P s)) as [HP|HP]; cbn;
    rewrite (IH (S s) Htail); try done.
  - exfalso. apply HP. by apply Hfl.
  - apply Hfl in HP. done.
Qed.

Lemma distinct_slots (slots : list nat) (n : nat) :
  Forall (λ i, i < n) slots →
  length (filter (λ j, j ∈ slots) (seq 0 n)) = length (remove_dups slots).
Proof.
  intros Hlt. apply Permutation_length, NoDup_Permutation.
  - apply NoDup_filter, NoDup_seq.
  - apply NoDup_remove_dups.
  - intros j. rewrite list_elem_of_filter, elem_of_remove_dups, elem_of_seq.
    split; [by intros [? _]|]. intros Hj. split; [done|].
    rewrite Forall_forall in Hlt. specialize (Hlt j Hj). lia.
Qed.

Lemma indicesOf_inBatch kind n (events : list (nat * LoaderEvent E)) :
  inBatch n events = true → Forall (λ i, i < n) (indicesOf kind events).
Proof.
  induction events as [|[index e] events IH]; intros Hin.
  - constructor.
  - cbn in Hin. apply andb_prop in Hin as [Hi Hin].
    rewrite indicesOf_cons. apply Forall_app. split; [|by apply IH].
    destruct (kind e); constructor; [|constructor]. by apply Nat.ltb_lt.
Qed.

Lemma checkPreReady_checkReady_step m index info :
  elementInfos m !! index = Some info →
  (∃ b m', checkPreReady index m = Some (b, m', [])
     ∧ preReadyCount m' = S (preReadyCount m)
     ∧ (b = true ↔ totalCount m ≤ S (preReadyCount m)))
  ∧ (∃ b m', checkReady index m = Some (b, m', [])
     ∧ readyCount m' = S (readyCount m)
     ∧ (b = true ↔ totalCount m ≤ S (readyCount m))).
Proof.
  intros Hi. split.
  - eexists _, _. split; [by apply checkPreReady_run|]. split; [done|].
    destruct (S (preReadyCount m) <? totalCount m) eqn:Hc; cbn -[Nat.ltb];
      [apply Nat.ltb_lt in Hc | apply Nat.ltb_ge in Hc];
      split; intros; first [done | lia | exfalso; lia].
  - eexists _, _. split; [by apply checkReady_run|]. split; [done|].
    destruct (S (readyCount m) <? totalCount m) eqn:Hc; cbn -[Nat.ltb];
      [apply Nat.ltb_lt in Hc | apply Nat.ltb_ge in Hc];
      split; intros; first [done | lia | exfalso; lia].
Qed.

(** C2 (amended).  On a slot [index] of the current batch, [checkPreReady]
    sets the entry's [isPreReady], adds one to [preReadyCount], changes
    nothing else, and returns true exactly when the counter is now at or
    beyond [totalCount] -- which is "is now equal to [totalCount]" whenever
    the counter was below [totalCount] before the call.  [checkReady] does
    the same with [isReady] and [readyCount]. *)
Theorem checkPreReady_checkReady_bookkeeping m index info :
  elementInfos m !! index = Some info →
  (∃ b m',
     checkPreReady index m = Some (b, m', [])
     ∧ m' = setPreReadyCount (S (preReadyCount m))
              (setElementInfos
                 (<[index := ElementInfo.setIsPreReady true info]>
                    (elementInfos m)) m)
     ∧ elementInfos m' !! index = Some (ElementInfo.setIsPreReady true info)
     ∧ preReadyCount m' = S (preReadyCount m)
     ∧ (b = true ↔ totalCount m' ≤ preReadyCount m')
     ∧ (preReadyCount m < totalCount m →
        (b = true ↔ preReadyCount m' = totalCount m')))
  ∧ (∃ b m',
     checkReady index m = Some (b, m', [])
     ∧ m' = setReadyCount (S (readyCount m))
              (setElementInfos
                 (<[index := ElementInfo.setIsReady true info]>
                    (elementInfos m)) m)
     ∧ elementInfos m' !! index = Some (ElementInfo.setIsReady true info)
     ∧ readyCount m' = S (readyCount m)
     ∧ (b = true ↔ totalCount m' ≤ readyCount m')
     ∧ (readyCount m < totalCount m →
        (b = true ↔ readyCount m' = totalCount m'))).
Proof.
  intros Hi. split.
  - eexists _, _. split; [by apply checkPreReady_run|].
    split; [done|]. split; [by apply (lookup_updated m index info)|].
    split; [done|]. cbn -[Nat.ltb].
    destruct (S (preReadyCount m) <? totalCount m) eqn:Hc; cbn;
      [apply Nat.ltb_lt in Hc | apply Nat.ltb_ge in Hc];
      (split; [|intros Hlt]); split; intros;
      first [done | lia | exfalso; lia].
  - eexists _, _. split; [by apply checkReady_run|].
    split; [done|]. split; [by apply (lookup_updated m index info)|].
    split; [done|]. cbn -[Nat.ltb].
    destruct (S (readyCount m) <? totalCount m) eqn:Hc; cbn;
      [apply Nat.ltb_lt in Hc | apply Nat.ltb_ge in Hc];
      (split; [|intros Hlt]); split; intros;
      first [done | lia | exfalso; lia].
Qed.

(** *** Errors *)

Lemma length_remove_dups_le (slots : list nat) :
  length (remove_dups slots) ≤ length slots.
Proof.
  induction slots as [|i slots IH]; [done|].
  cbn. destruct (decide_rel elem_of i slots); cbn; lia.
Qed.

Lemma checked_lookup m (elements : list E) j :
  elementInfos (checked m elements) !! j = freshInfo m <$> elements !! j.
Proof. cbn. apply list_lookup_fmap. Qed.

(** C4.  On a slot [index] of the batch, [onError(index, target)] sets the
    entry's [hasError], adds one to [totalErrorCount], and triggers one
    [error] event that carries the entry's element, [index], [target], the
    number of entries whose [hasError] is set now (counted over the array,
    not kept as a sum) and the new [totalErrorCount].  After the loaders of
    a batch have delivered any events, of which [n] are errors naming [k]
    different slots, [getErrorCount()] is [k] and [totalErrorCount] is [n];
    so [totalErrorCount] is never below the error count and exceeds it as
    soon as one slot fails twice.  The batch is one that [check] has made:
    [getLoader] has returned for each of its elements. *)
Theorem onError_counts m index target info m0 (elements : list E) events :
  elementInfos m !! index = Some info →
  checkable m0 elements = true →
  inBatch (length elements) events = true →
  (∃ m',
     onError index target m =
       Some (tt, m',
             [Trigger
                (EvError
                   (OnError.mk (ElementInfo.element info) index target
                      (getErrorCount m') (totalErrorCount m')))
                (handlersFor "error" m)])
     ∧ elementInfos m' =
         <[index := ElementInfo.setHasError true info]> (elementInfos m)
     ∧ elementInfos m' !! index = Some (ElementInfo.setHasError true info)
     ∧ totalErrorCount m' = S (totalErrorCount m)
     ∧ getErrorCount m' =
         length (List.filter ElementInfo.hasError (elementInfos m')))
  ∧ (∃ m1 log1 m2 log2,
       check elements m0 = Some (tt, m1, log1)
       ∧ deliver events m1 = Some (tt, m2, log2)
       ∧ getErrorCount m2 = length (remove_dups (indicesOf countsError events))
       ∧ totalErrorCount m2 = length (indicesOf countsError events)
       ∧ getErrorCount m2 ≤ totalErrorCount m2).
Proof.
  intros Hi Hcan Hin. split.
  - exists (setTotalErrorCount (S (totalErrorCount m))
              (setElementInfos
                 (<[index := ElementInfo.setHasError true info]>
                    (elementInfos m)) m)).
    split; [by rewrite (onError_run m index target info Hi)|].
    split; [done|]. split; [|done].
    by apply (lookup_updated m index info).
  - destruct (deliver_run events (checked m0 elements)) as (m2 & log2 & Hrun & D).
    { cbn. by rewrite length_fmap. }
    eexists _, _, m2, log2. split; [by apply check_run|]. split; [done|].
    destruct D.
    assert (Hk : getErrorCount m2 =
                 length (remove_dups (indicesOf countsError events))).
    { unfold getErrorCount.
      rewrite (filter_length_by_index ElementInfo.hasError
                 (λ j, j ∈ indicesOf countsError events) _ 0).
      - rewrite delivered_length0. cbn. rewrite length_fmap.
        apply distinct_slots. by apply indicesOf_inBatch.
      - intros j x Hj. rewrite delivered_infos0, checked_lookup in Hj.
        destruct (elements !! j) as [element|]; [|done].
        cbn in Hj. injection Hj as <-.
        rewrite infoAfter_hasError. cbn.
        by rewrite bool_decide_eq_true. }
    split; [done|]. split; [by rewrite delivered_totalErrorCount0|].
    rewrite Hk, delivered_totalErrorCount0. cbn.
    apply length_remove_dups_le.
Qed.

(** *** The same event delivered again *)

Lemma inBatch_replicate n c index (e : LoaderEvent E) :
  index < n → inBatch n (replicate c (index, e)) = true.
Proof.
  intros Hlt. unfold inBatch. induction c as [|c IH]; [done|].
  cbn -[Nat.ltb]. rewrite IH, andb_true_r. by apply Nat.ltb_lt.
Qed.

Lemma indicesOf_replicate kind c index (e : LoaderEvent E) :
  kind e = true → indicesOf kind (replicate c (index, e)) = replicate c index.
Proof.
  intros Hk. induction c as [|c IH]; [done|].
  cbn [replicate]. rewrite indicesOf_cons, Hk, IH. done.
Qed.

Lemma remove_dups_replicate c (i : nat) :
  remove_dups (replicate (S c) i) = [i].
Proof.
  induction c as [|c IH]; [done|].
  change (replicate (S (S c)) i) with (i :: replicate (S c) i).
  cbn [remove_dups]. destruct (decide_rel elem_of i (replicate (S c) i)) as [|Hn].
  - done.
  - exfalso. apply Hn. by left.
Qed.

(** C9.  [checkPreReady] and [checkReady] add one to their counter also when
    the flag of the slot is set already, and they return true whenever the
    counter is then at or beyond [totalCount].  So when the [preReady] (or
    [ready]) handler of one slot of a batch of [n >= 2] resources runs
    [n + k] times, the counter is [n + k] while one entry is flagged, and
    the batch event is triggered [k + 1] times, the first time although the
    other resources have not reported: the batch event is triggered once,
    and only when all have reported, only for loaders that emit each
    milestone at most once.  The batch is one that [check] has made:
    [getLoader] has returned for each of its elements. *)
Theorem repeated_events_overcount mm index info m (first second : E)
    (rest : list E) (k : nat) (h : bool) :
  elementInfos mm !! index = Some info →
  ElementInfo.isPreReady info = true →
  ElementInfo.isReady info = true →
  checkable m (first :: second :: rest) = true →
  let elements := first :: second :: rest in
  let n := length elements in
  (∃ b m', checkPreReady index mm = Some (b, m', [])
     ∧ preReadyCount m' = S (preReadyCount mm)
     ∧ (b = true ↔ totalCount mm ≤ S (preReadyCount mm)))
  ∧ (∃ b m', checkReady index mm = Some (b, m', [])
     ∧ readyCount m' = S (readyCount mm)
     ∧ (b = true ↔ totalCount mm ≤ S (readyCount mm)))
  ∧ (∃ m1 log1 m2 log2,
       check elements m = Some (tt, m1, log1)
       ∧ deliver (replicate (n + k) (0, LoaderPreReady h)) m1
         = Some (tt, m2, log2)
       ∧ preReadyCount m2 = n + k
       ∧ length (List.filter ElementInfo.isPreReady (elementInfos m2)) = 1
       ∧ isPreReady m2 = false
       ∧ batchPreReadyCount log2 = S k)
  ∧ (∃ m1 log1 m2 log2,
       check elements m = Some (tt, m1, log1)
       ∧ deliver (replicate (n + k) (0, LoaderReady false h)) m1
         = Some (tt, m2, log2)
       ∧ readyCount m2 = n + k
       ∧ length (List.filter ElementInfo.isReady (elementInfos m2)) = 1
       ∧ isReady m2 = false
       ∧ batchReadyCount log2 = S k).
Proof.
  intros Hi _ _ Hcan elements n.
  destruct (checkPreReady_checkReady_step mm index info Hi) as [Hpre Hready].
  split; [done|]. split; [done|].
  assert (Hn : n = length elements) by done.
  assert (H2 : 2 ≤ n) by (unfold n; cbn; lia).
  clearbody n.
  split.
  - set (events := replicate (n + k) (0, LoaderPreReady h)).
    destruct (deliver_run events (checked m elements))
      as (m2 & log2 & Hrun & D).
    { cbn [checked elementInfos]. rewrite length_fmap, <- Hn.
      apply inBatch_replicate. lia. }
    eexists _, _, m2, log2. split; [by apply check_run|]. split; [done|].
    destruct D. unfold events in *.
    rewrite (indicesOf_replicate countsPreReady) in * by done.
    rewrite length_replicate in *.
    assert (Hflag : ∀ j x, elementInfos m2 !! j = Some x →
              (ElementInfo.isPreReady x = true ↔ j ∈ replicate (n + k) 0)).
    { intros j x Hj. rewrite delivered_infos0, checked_lookup in Hj.
      destruct (elements !! j) as [element|]; [|done].
      cbn [fmap option_fmap option_map] in Hj. injection Hj as <-.
      rewrite infoAfter_isPreReady.
      rewrite (indicesOf_replicate countsPreReady) by done. cbn.
      by rewrite bool_decide_eq_true. }
    split; [done|]. split; [|split].
    + rewrite (filter_length_by_index ElementInfo.isPreReady
                 (λ j, j ∈ replicate (n + k) 0) _ 0)
        by (intros j x Hj; by apply Hflag).
      rewrite delivered_length0. cbn [checked elementInfos].
      rewrite length_fmap.
      rewrite <- Hn, (distinct_slots (replicate (n + k) 0) n).
      * replace (n + k) with (S (n + k - 1)) by lia.
        by rewrite remove_dups_replicate.
      * apply Forall_replicate. lia.
    + destruct (isPreReady m2) eqn:Hall; [|done]. exfalso.
      destruct (lookup_lt_is_Some_2 (elementInfos m2) 1) as [x Hx].
      { rewrite delivered_length0. cbn [checked elementInfos].
        rewrite length_fmap, <- Hn. lia. }
      assert (Hset : ElementInfo.isPreReady x = true).
      { apply (proj1 (isPreReady_Forall m2) Hall).
        apply list_elem_of_lookup. by exists 1. }
      apply (Hflag 1 x Hx) in Hset.
      by apply elem_of_replicate_inv in Hset.
    + rewrite delivered_batchPreReady0. cbn [checked totalCount preReadyCount].
      rewrite <- Hn. unfold firings. lia.
  - set (events := replicate (n + k) (0, LoaderReady false h)).
    destruct (deliver_run events (checked m elements))
      as (m2 & log2 & Hrun & D).
    { cbn [checked elementInfos]. rewrite length_fmap, <- Hn.
      apply inBatch_replicate. lia. }
    eexists _, _, m2, log2. split; [by apply check_run|]. split; [done|].
    destruct D. unfold events in *.
    rewrite (indicesOf_replicate countsReady) in * by done.
    rewrite length_replicate in *.
    assert (Hflag : ∀ j x, elementInfos m2 !! j = Some x →
              (ElementInfo.isReady x = true ↔ j ∈ replicate (n + k) 0)).
    { intros j x Hj. rewrite delivered_infos0, checked_lookup in Hj.
      destruct (elements !! j) as [element|]; [|done].
      cbn [fmap option_fmap option_map] in Hj. injection Hj as <-.
      rewrite infoAfter_isReady.
      rewrite (indicesOf_replicate countsReady) by done. cbn.
      by rewrite bool_decide_eq_true. }
    split; [done|]. split; [|split].
    + rewrite (filter_length_by_index ElementInfo.isReady
                 (λ j, j ∈ replicate (n + k) 0) _ 0)
        by (intros j x Hj; by apply Hflag).
      rewrite delivered_length0. cbn [checked elementInfos].
      rewrite length_fmap.
      rewrite <- Hn, (distinct_slots (replicate (n + k) 0) n).
      * replace (n + k) with (S (n + k - 1)) by lia.
        by rewrite remove_dups_replicate.
      * apply Forall_replicate. lia.
    + destruct (isReady m2) eqn:Hall; [|done]. exfalso.
      destruct (lookup_lt_is_Some_2 (elementInfos m2) 1) as [x Hx].
      { rewrite delivered_length0. cbn [checked elementInfos].
        rewrite length_fmap, <- Hn. lia. }
      assert (Hset : ElementInfo.isReady x = true).
      { apply (proj1 (isReady_Forall m2) Hall).
        apply list_elem_of_lookup. by exists 1. }
      apply (Hflag 1 x Hx) in Hset.
      by apply elem_of_replicate_inv in Hset.
    + rewrite delivered_batchReady0. cbn [checked totalCount readyCount].
      rewrite <- Hn. unfold firings. lia.
Qed.

(** *** The loaders' contract *)

Lemma occurrences_cons i j (l : list nat) :
  occurrences i (j :: l) = (if i =? j then 1 else 0) + occurrences i l.
Proof. unfold occurrences. cbn. by destruct (i =? j). Qed.

Lemma occurrences_app i (l1 l2 : list nat) :
  occurrences i (l1 ++ l2) = occurrences i l1 + occurrences i l2.
Proof. unfold occurrences. by rewrite List.filter_app, length_app. Qed.

Lemma occurrences_pos i (l : list nat) : 0 < occurrences i l ↔ i ∈ l.
Proof.
  induction l as [|j l IH].
  - cbn. split; [lia|]. by intros ?%elem_of_nil.
  - rewrite occurrences_cons, elem_of_cons.
    destruct (Nat.eqb_spec i j) as [->|Hne].
    + split; [by left|lia].
    + rewrite <- IH. split; [by right|]. intros [?|?]; [done|lia].
Qed.

Lemma exactlyOnce_spec n (l : list nat) :
  exactlyOnce n l = true ↔ ∀ i, i < n → occurrences i l = 1.
Proof.
  unfold exactlyOnce. rewrite forallb_forall. split.
  - intros Hall i Hi. apply Nat.eqb_eq, Hall, in_seq. lia.
  - intros Hall i Hi%in_seq. apply Nat.eqb_eq, Hall. lia.
Qed.

Lemma occurrences_NoDup (l : list nat) :
  (∀ i, i ∈ l → occurrences i l = 1) → NoDup l.
Proof.
  induction l as [|j l IH]; intros Hall; [constructor|].
  assert (Hj := Hall j ltac:(by left)).
  rewrite occurrences_cons, Nat.eqb_refl in Hj.
  constructor.
  - rewrite <- occurrences_pos. lia.
  - apply IH. intros i Hi.
    assert (Hi' := Hall i ltac:(by right)).
    rewrite occurrences_cons in Hi'.
    apply occurrences_pos in Hi. destruct (i =? j); lia.
Qed.

Lemma exactlyOnce_length n (l : list nat) :
  exactlyOnce n l = true → Forall (λ i, i < n) l → length l = n.
Proof.
  rewrite exactlyOnce_spec, Forall_forall. intros Hocc Hlt.
  transitivity (length (seq 0 n)); [|apply length_seq].
  apply Permutation_length, NoDup_Permutation.
  - apply occurrences_NoDup. intros i Hi. by apply Hocc, Hlt.
  - apply NoDup_seq.
  - intros i. rewrite elem_of_seq. split.
    + intros Hi%Hlt. lia.
    + intros [_ Hi]. apply occurrences_pos. rewrite Hocc; lia.
Qed.

Lemma inBatch_app n (ev1 ev2 : list (nat * LoaderEvent E)) :
  inBatch n (ev1 ++ ev2) = inBatch n ev1 && inBatch n ev2.
Proof. apply forallb_app. Qed.

Lemma preReadyFirst_spec (events : list (nat * LoaderEvent E)) k i :
  preReadyFirst events = true →
  k ≤ length events →
  i ∈ indicesOf countsReady (take k events) →
  1 ≤ occurrences i (indicesOf countsPreReady (take k events)).
Proof.
  unfold preReadyFirst. rewrite forallb_forall. intros Hall Hk Hi.
  specialize (Hall k). rewrite forallb_forall in Hall.
  apply Nat.leb_le, Hall.
  - apply in_seq. lia.
  - by apply list_elem_of_In.
Qed.

(** The last [ready] of a run of events. *)
Lemma last_ready (events : list (nat * LoaderEvent E)) :
  0 < length (indicesOf countsReady events) →
  ∃ ev1 index w h ev3,
    events = ev1 ++ (index, LoaderReady w h) :: ev3
    ∧ indicesOf countsReady ev3 = [].
Proof.
  induction events as [|[index e] events IH] using rev_ind; [cbn; lia|].
  rewrite indicesOf_app, length_app, indicesOf_cons.
  destruct e as [t|h|w h]; cbn.
  - rewrite Nat.add_0_r. intros (ev1 & i & w & h & ev3 & -> & Hnone)%IH.
    exists ev1, i, w, h, (ev3 ++ [(index, LoaderError t)]).
    split; [by rewrite <- app_assoc|].
    by rewrite indicesOf_app, Hnone.
  - rewrite Nat.add_0_r. intros (ev1 & i & w & h' & ev3 & -> & Hnone)%IH.
    exists ev1, i, w, h', (ev3 ++ [(index, LoaderPreReady h)]).
    split; [by rewrite <- app_assoc|].
    by rewrite indicesOf_app, Hnone.
  - intros _. by exists events, index, w, h, [].
Qed.

(** After the last [ready], no loader has a pre-ready left to report. *)
Lemma nothing_after_last_ready n ev1 index w h
    (ev3 : list (nat * LoaderEvent E)) :
  let events := ev1 ++ (index, LoaderReady w h) :: ev3 in
  loaderContract n events = true →
  indicesOf countsReady ev3 = [] →
  indicesOf countsPreReady ev3 = [].
Proof.
  intros events Hc Hnone. unfold loaderContract in Hc.
  apply andb_prop in Hc as [Hc Hfirst].
  apply andb_prop in Hc as [Hc Hready].
  apply andb_prop in Hc as [Hin Hpre].
  destruct (indicesOf countsPreReady ev3) as [|x rest] eqn:Hev3; [done|].
  exfalso.
  assert (Hx : x ∈ indicesOf countsPreReady ev3) by (rewrite Hev3; by left).
  assert (Hlt : x < n).
  { unfold events in Hin. rewrite inBatch_app in Hin.
    apply andb_prop in Hin as [_ Hin]. cbn in Hin.
    apply andb_prop in Hin as [_ Hin].
    apply (indicesOf_inBatch countsPreReady) in Hin.
    rewrite Forall_forall in Hin. by apply Hin. }
  set (evA := ev1 ++ [(index, LoaderReady w h)]).
  assert (Hsplit : events = evA ++ ev3).
  { unfold events, evA. by rewrite <- app_assoc. }
  assert (Htake : take (length evA) events = evA).
  { rewrite Hsplit. by rewrite take_app_length. }
  assert (HxA : x ∈ indicesOf countsReady evA).
  { apply occurrences_pos.
    assert (Hone := proj1 (exactlyOnce_spec _ _) Hready x Hlt).
    rewrite Hsplit, indicesOf_app, Hnone, app_nil_r in Hone. lia. }
  assert (HpreA : 1 ≤ occurrences x (indicesOf countsPreReady evA)).
  { rewrite <- Htake. apply preReadyFirst_spec; [done| |by rewrite Htake].
    rewrite Hsplit, length_app. lia. }
  assert (Hone := proj1 (exactlyOnce_spec _ _) Hpre x Hlt).
  rewrite Hsplit, indicesOf_app, occurrences_app in Hone.
  apply occurrences_pos in Hx. lia.
Qed.

(** One batch [preReady] in a log: where it is. *)
Lemma single_batchPreReady (log : list (Effect E)) :
  batchPreReadyCount log = 1 →
  ∃ l1 pe handlers l2,
    log = l1 ++ Trigger (EvPreReady pe) handlers :: l2
    ∧ batchPreReadyCount l1 = 0 ∧ batchPreReadyCount l2 = 0.
Proof.
  induction log as [|eff log IH]; [done|].
  change (eff :: log) with ([eff] ++ log).
  rewrite batchPreReadyCount_app.
  destruct (isBatchPreReady eff) eqn:Heff.
  - destruct eff as [| | |[| |pe| |] handlers|]; try done.
    intros Hrest. exists [], pe, handlers, log. cbn in *.
    split; [done|]. split; [done|]. unfold batchPreReadyCount in *. lia.
  - unfold batchPreReadyCount at 1. cbn. rewrite Heff. cbn.
    intros (l1 & pe & handlers & l2 & -> & H1 & H2)%IH.
    exists (eff :: l1), pe, handlers, l2. split; [done|]. split; [|done].
    change (eff :: l1) with ([eff] ++ l1). rewrite batchPreReadyCount_app.
    unfold batchPreReadyCount at 1. cbn. by rewrite Heff.
Qed.


Lemma quiet_nil : quiet ([] : list (Effect E)).
Proof. done. Qed.

Lemma firings_none total count : firings total count 0 = 0.
Proof. unfold firings. lia. Qed.

(** A batch that has just been checked: nothing counted yet, and
    [totalCount] resources to wait for.  For its loaders' contract, the log
    of the handlers has the batch [preReady] once, then the batch [ready]
    once. *)
Lemma contract_log m1 events :
  preReadyCount m1 = 0 →
  readyCount m1 = 0 →
  totalCount m1 = length (elementInfos m1) →
  0 < totalCount m1 →
  loaderContract (totalCount m1) events = true →
  ∃ m2 log,
    deliver events m1 = Some (tt, m2, log)
    ∧ Delivered m1 events m2 log
    ∧ batchPreReadyCount log = 1
    ∧ batchReadyCount log = 1
    ∧ ∃ before pe handlers1 between re handlers2 after,
        log = before ++ Trigger (EvPreReady pe) handlers1
                :: between ++ Trigger (EvReady re) handlers2 :: after
        ∧ quiet before ∧ quiet between ∧ quiet after.
Proof.
  intros Hp0 Hr0 Hlen Hn Hc.
  set (n := totalCount m1) in *.
  assert (Hc' := Hc). unfold loaderContract in Hc'.
  apply andb_prop in Hc' as [Hc' Hfirst].
  apply andb_prop in Hc' as [Hc' Hready].
  apply andb_prop in Hc' as [Hin Hpre].
  assert (HR : length (indicesOf countsReady events) = n)
    by (apply exactlyOnce_length; [done|by apply indicesOf_inBatch]).
  assert (HP : length (indicesOf countsPreReady events) = n)
    by (apply exactlyOnce_length; [done|by apply indicesOf_inBatch]).
  destruct (deliver_run events m1) as (m2 & log & Hrun & D);
    [by rewrite <- Hlen|].
  destruct (last_ready events) as (ev1 & index & w & h & ev3 & Hev & Hnone);
    [lia|].
  assert (Hnone' : indicesOf countsPreReady ev3 = []).
  { apply (nothing_after_last_ready n ev1 index w h); [|done].
    by rewrite <- Hev. }
  rewrite Hev, indicesOf_app, indicesOf_cons, length_app, length_app in HR, HP.
  rewrite Hnone in HR. rewrite Hnone' in HP. cbn in HR, HP.
  rewrite Hev, inBatch_app in Hin. apply andb_prop in Hin as [Hin1 Hin3].
  cbn in Hin3. apply andb_prop in Hin3 as [Hindex Hin3].
  apply Nat.ltb_lt in Hindex.
  destruct (deliver_run ev1 m1) as (ma & loga & Hrun1 & Da);
    [by rewrite <- Hlen|].
  destruct Da.
  fold n in delivered_totalCount0, delivered_batchPreReady0,
    delivered_batchReady0.
  rewrite Hp0 in *. rewrite Hr0 in *.
  destruct (lookup_lt_is_Some_2 (elementInfos ma) index) as [info Hinfo];
    [by rewrite delivered_length0, <- Hlen|].
  destruct (onLoaderEvent_run ma index (LoaderReady w h) info Hinfo)
    as (per & Hrun2 & Hper & _).
  set (mb := afterEvent index (LoaderReady w h) info ma) in *.
  destruct (deliver_run ev3 mb) as (mc & logc & Hrun3 & Dc).
  { unfold mb. cbn. by rewrite length_insert, delivered_length0, <- Hlen. }
  destruct Dc as [_ _ _ _ _ _ _ Hc1 Hc2 _ _].
  rewrite Hnone', firings_none in Hc1. rewrite Hnone, firings_none in Hc2.
  assert (Hfr : firesReady (LoaderReady w h) ma = true).
  { unfold firesReady. cbn -[Nat.leb]. apply Nat.leb_le. lia. }
  assert (Hra : batchReadyCount loga = 0).
  { rewrite delivered_batchReady0. unfold firings. lia. }
  assert (Hlog : deliver events m1 =
            Some (tt, mc,
                  loga ++ (per
                    ++ (if firesPreReady (LoaderReady w h) ma
                        then [Trigger (EvPreReady (preReadyPayload mb))
                                (handlersFor "preReady" ma)]
                        else [])
                    ++ (if firesReady (LoaderReady w h) ma
                        then [Trigger (EvReady (readyPayload mb))
                                (handlersFor "ready" ma)]
                        else [])) ++ logc)).
  { rewrite Hev. rewrite (deliver_app_run _ _ _ _ _ Hrun1).
    cbn [deliver]. rewrite (bind_run _ _ _ _ _ _ Hrun2), Hrun3.
    reflexivity. }
  rewrite Hlog in Hrun. injection Hrun as <- <-.
  exists mc. eexists. split; [exact Hlog|]. split; [exact D|].
  rewrite Hfr.
  destruct w; cbn in HP.
  - assert (Hfp : firesPreReady (LoaderReady true h) ma = true).
    { unfold firesPreReady. cbn -[Nat.leb]. apply Nat.leb_le. lia. }
    assert (Hpa : batchPreReadyCount loga = 0).
    { rewrite delivered_batchPreReady0. unfold firings. lia. }
    rewrite Hfp. destruct Hper as [Hper1 Hper2].
    split; [|split].
    + rewrite !batchPreReadyCount_app, Hpa, Hper1, Hc1. done.
    + rewrite !batchReadyCount_app, Hra, Hper2, Hc2. done.
    + eexists (loga ++ per), _, _, [], _, _, logc.
      split; [by rewrite <- !app_assoc|].
      split; [by apply quiet_app|]. split; [apply quiet_nil|done].
  - assert (Hfp : firesPreReady (LoaderReady false h) ma = false) by done.
    assert (Hpa : batchPreReadyCount loga = 1).
    { rewrite delivered_batchPreReady0. unfold firings. lia. }
    rewrite Hfp. destruct Hper as [Hper1 Hper2].
    split; [|split].
    + rewrite !batchPreReadyCount_app, Hpa, Hper1, Hc1. done.
    + rewrite !batchReadyCount_app, Hra, Hper2, Hc2. done.
    + destruct (single_batchPreReady loga Hpa)
        as (l1 & pe & handlers & l2 & -> & Hl1 & Hl2).
      rewrite batchReadyCount_app in Hra.
      change (Trigger (EvPreReady pe) handlers :: l2)
        with ([Trigger (EvPreReady pe) handlers] ++ l2) in Hra.
      rewrite batchReadyCount_app in Hra.
      eexists l1, pe, handlers, (l2 ++ per), _, _, logc.
      split; [cbn; by rewrite <- !app_assoc|].
      split; [split; [done|lia]|].
      split; [|done].
      apply quiet_app; [split; [done|lia]|done].
Qed.

(** *** Runs with a pending timer *)




(** *** Containers *)

Lemma notify_untriggered (k : Container E) (log : list (Effect E)) :
  List.filter isTrigger log = [] → foldl notify k log = k.
Proof.
  induction log as [|eff log IH]; [done|].
  cbn. destruct eff; cbn; try done; exact IH.
Qed.

Lemma check_log_untriggered m (elements : list E) :
  List.filter isTrigger
    ((LoaderDestroy <$> unfinishedLoaders (elementInfos m))
     ++ subscriptions m elements 0
     ++ (if length elements =? 0 then [SetTimeout EmptyBatchTask] else []))
  = [].
Proof.
  rewrite !List.filter_app.
  assert (H1 : List.filter isTrigger
                 (LoaderDestroy <$> unfinishedLoaders (elementInfos m)) = []).
  { induction (unfinishedLoaders (elementInfos m)) as [|l ls IH]; done. }
  assert (H2 : ∀ index,
            List.filter isTrigger (subscriptions m elements index) = []).
  { induction elements as [|element rest IH]; intros index; [done|].
    cbn. apply IH. }
  rewrite H1, H2. by destruct (length elements =? 0).
Qed.

(** Where nothing but errors and per-element events is triggered, the
    container's loader hears of errors only. *)
Lemma quiet_notify mch (k : Container E) (log : list (Effect E)) :
  listeners mch =
    [("error", ForwardError); ("ready", ForwardReady);
     ("preReady", ForwardPreReady)] →
  quiet log →
  Forall (addressed mch) log →
  withPreReady (foldl notify k log) = withPreReady k
  ∧ milestoneCalls (loaderCalls (foldl notify k log))
    = milestoneCalls (loaderCalls k).
Proof.
  intros Hls. revert k. induction log as [|eff log IH]; intros k Hq Hall;
    [done|].
  apply Forall_cons in Hall as [Heff Hall].
  destruct Hq as [Hq1 Hq2].
  change (eff :: log) with ([eff] ++ log) in Hq1, Hq2.
  rewrite batchPreReadyCount_app in Hq1. rewrite batchReadyCount_app in Hq2.
  assert (Hq : quiet log) by (split; lia).
  cbn [foldl].
  destruct eff as [| | |ev handlers|]; cbn [notify]; try by apply IH.
  cbn in Heff. unfold handlersFor in Heff. rewrite Hls in Heff.
  destruct ev as [e|e|e|e|e]; cbn in Heff; subst handlers; cbn [foldl forward];
    try (by apply IH); try (cbn in Hq1; lia); try (cbn in Hq2; lia).
  destruct (IH (callLoader (CallOnError (OnError.target e)) k) Hq Hall)
    as [-> ->].
  split; [done|]. cbn. unfold milestoneCalls.
  by rewrite List.filter_app, app_nil_r.
Qed.

(** What [getLoader] returned when it returned a container. *)
Lemma getLoader_nested m element opts (k : Container E) :
  getLoader m element opts = Some (Nested k) →
  getProperty (toLowerCase (tagName element)) (loaders (options m)) = None
  ∧ isSelectorList (join ", " (keys (loaders (options m)))) = true
  ∧ k = mkContainer
          (ContainerLoader element opts
             (existsb hasLoadingAttribute
                (matching element (join ", " (keys (loaders (options m)))))))
          element (options m)
          [("requestChildren", CheckContentElements);
           ("reqeustReadyChildren", CheckChildren);
           ("requestDestroy", DestroyChildren)]
          (matching element (join ", " (keys (loaders (options m)))))
          (keys (loaders (options m))) false
          (setListeners [("error", ForwardError); ("ready", ForwardReady)]
             (clone m))
          [] [].
Proof.
  unfold getLoader, querySelectorAll.
  destruct (getProperty _ _); [done|].
  destruct (isSelectorList _); [|done].
  by intros [= <-].
Qed.

(** The nested manager of a container has the owner's loaders, and the
    selector list the container was found with: its [check] returns. *)
Lemma nested_checkable m element opts (k : Container E) (elements : list E) :
  getLoader m element opts = Some (Nested k) →
  checkable (childrenImReady k) elements = true.
Proof.
  intros (_ & Hsel & ->)%getLoader_nested. by apply checkable_selector.
Qed.

(** A nested manager with the three forwarding handlers, on a batch it has
    just checked: for the contract of its loaders, the container's loader is
    told each milestone once. *)
Lemma forwarded_once (k1 : Container E) events :
  listeners (childrenImReady k1) =
    [("error", ForwardError); ("ready", ForwardReady);
     ("preReady", ForwardPreReady)] →
  preReadyCount (childrenImReady k1) = 0 →
  readyCount (childrenImReady k1) = 0 →
  totalCount (childrenImReady k1) = length (elementInfos (childrenImReady k1)) →
  0 < totalCount (childrenImReady k1) →
  loaderContract (totalCount (childrenImReady k1)) events = true →
  ∃ k2,
    runChildren (deliver events) k1 = Some k2
    ∧ (milestoneCalls (loaderCalls k2)
         = milestoneCalls (loaderCalls k1) ++ [CallOnReady true]
       ∨ milestoneCalls (loaderCalls k2)
         = milestoneCalls (loaderCalls k1)
           ++ [CallOnPreReady; CallOnReady false]).
Proof.
  intros Hls Hp0 Hr0 Hlen Hn Hc.
  set (m1 := childrenImReady k1) in *.
  destruct (contract_log m1 events Hp0 Hr0 Hlen Hn Hc)
    as (m2 & log & Hrun & D & _ & _ & Hshape).
  destruct Hshape as (before & pe & h1 & between & re & h2 & after
                      & -> & Hq1 & Hq2 & Hq3).
  eexists. split.
  { unfold runChildren. fold m1. rewrite Hrun. reflexivity. }
  destruct D as [_ _ _ _ _ _ _ _ _ _ Haddr].
  apply Forall_app in Haddr as [Ha1 Haddr].
  apply Forall_cons in Haddr as [Hpe Haddr].
  apply Forall_app in Haddr as [Ha2 Haddr].
  apply Forall_cons in Haddr as [Hre Ha3].
  cbn in Hpe, Hre. subst h1 h2.
  unfold handlersFor. rewrite Hls. cbn [List.filter String.eqb fst snd fmap
    list_fmap Ascii.eqb Bool.eqb andb].
  rewrite foldl_app. cbn [foldl]. rewrite foldl_app. cbn [foldl].
  set (k0 := stepChildren m2 _ k1).
  destruct (quiet_notify m1 k0 before Hls Hq1 Ha1) as [Hw1 Hc1].
  set (ka := foldl notify k0 before) in *.
  cbn [notify foldl forward].
  destruct (OnPreReady.isReady pe) eqn:Hready.
  - set (kb := setWithPreReady true ka).
    change (withPreReady kb) with true. cbn match.
    destruct (quiet_notify m1 kb between Hls Hq2 Ha2) as [Hw2 Hc2].
    set (kc := foldl notify kb between) in *.
    destruct (quiet_notify m1 (callLoader (CallOnReady (withPreReady kc)) kc)
                after Hls Hq3 Ha3) as [_ ->].
    left. cbn. unfold milestoneCalls in *.
    rewrite List.filter_app, Hc2. cbn. rewrite Hc1, Hw2. done.
  - set (kb := setWithPreReady false ka).
    change (withPreReady kb) with false. cbn match.
    destruct (quiet_notify m1 (callLoader CallOnPreReady kb) between
                Hls Hq2 Ha2) as [Hw2 Hc2].
    set (kc := foldl notify (callLoader CallOnPreReady kb) between) in *.
    destruct (quiet_notify m1 (callLoader (CallOnReady (withPreReady kc)) kc)
                after Hls Hq3 Ha3) as [_ ->].
    right. cbn. unfold milestoneCalls in *.
    rewrite List.filter_app, Hc2. cbn.
    rewrite List.filter_app, Hc1, Hw2. cbn. by rewrite <- app_assoc.
Qed.

(** [requestChildren] on the container [getLoader] returned. *)
Lemma requestChildren_run m element opts (k : Container E) :
  getLoader m element opts = Some (Nested k) →
  let contents :=
    getContentElements element (tags k) (prefix (options m)) in
  loaderTrigger "requestChildren" k =
    Some (stepChildren
            (setListeners
               [("error", ForwardError); ("ready", ForwardReady);
                ("preReady", ForwardPreReady)]
               (checked (childrenImReady k) contents))
            (subscriptions (childrenImReady k) contents 0
             ++ (if length contents =? 0
                 then [SetTimeout EmptyBatchTask] else []))
            k).
Proof.
  intros Hk contents.
  assert (Hcan := nested_checkable m element opts k contents Hk).
  destruct (getLoader_nested _ _ _ _ Hk) as (_ & _ & Heq).
  assert (Hh : loaderHandlers k =
            [("requestChildren", CheckContentElements);
             ("reqeustReadyChildren", CheckChildren);
             ("requestDestroy", DestroyChildren)]) by (by rewrite Heq).
  assert (He : containerElement k = element) by (by rewrite Heq).
  assert (Ho : ownerOptions k = options m) by (by rewrite Heq).
  assert (Hl : listeners (childrenImReady k) =
            [("error", ForwardError); ("ready", ForwardReady)])
    by (by rewrite Heq).
  assert (Hi : elementInfos (childrenImReady k) = []) by (by rewrite Heq).
  unfold loaderTrigger. rewrite Hh.
  cbn [List.filter fmap list_fmap String.eqb fst snd requests request
       Ascii.eqb Bool.eqb andb].
  rewrite He, Ho. fold contents. unfold runChildren.
  rewrite (bind_run _ _ _ _ _ _ (check_run (childrenImReady k) contents Hcan)).
  unfold on, modify. cbn -[Nat.eqb]. rewrite Hi, Hl. cbn -[Nat.eqb].
  rewrite app_nil_r.
  rewrite notify_untriggered; [done|].
  assert (H0 := check_log_untriggered (childrenImReady k) contents).
  rewrite Hi in H0. exact H0.
Qed.

(** X14.  A container whose nested manager checks a non-empty set of content
    elements, and whose nested loaders keep their contract, is told
    [onPreReady()] and then [onReady(false)], or [onReady(true)] alone: its
    loader reports each milestone to its own manager once. *)
Lemma container_reports_once m element opts k events :
  getLoader m element opts = Some (Nested k) →
  let contents :=
    getContentElements element (tags k) (prefix (options m)) in
  contents ≠ [] →
  loaderContract (length contents) events = true →
  ∃ k1 k2,
    loaderTrigger "requestChildren" k = Some k1
    ∧ elementInfos (childrenImReady k1)
      = freshInfo (childrenImReady k) <$> contents
    ∧ runChildren (deliver events) k1 = Some k2
    ∧ (milestoneCalls (loaderCalls k2) = [CallOnReady true]
       ∨ milestoneCalls (loaderCalls k2) = [CallOnPreReady; CallOnReady false]).
Proof.
  intros Hk contents Hne Hc.
  assert (Hn : 0 < length contents)
    by (destruct contents; [done|cbn; lia]).
  assert (Hk1 := requestChildren_run m element opts k Hk). cbn zeta in Hk1.
  fold contents in Hk1.
  destruct (getLoader_nested _ _ _ _ Hk) as (_ & _ & Heq).
  assert (Hcalls : loaderCalls k = []) by (by rewrite Heq).
  set (k1 := stepChildren _ _ k) in Hk1.
  destruct (forwarded_once k1 events) as (k2 & Hrun & Hcase);
    try reflexivity.
  - cbn. by rewrite length_fmap.
  - exact Hn.
  - exact Hc.
  - exists k1, k2. split; [exact Hk1|]. split; [reflexivity|].
    split; [exact Hrun|].
    cbn [k1 stepChildren loaderCalls] in Hcase.
    by rewrite Hcalls in Hcase.
Qed.

(** X16.  An error of a nested loader reaches the container's loader as
    [onError(target)], and leaves [withPreReady] as it is. *)
Lemma container_forwards_error (k : Container E) index target info :
  elementInfos (childrenImReady k) !! index = Some info →
  handlersFor "error" (childrenImReady k) = [ForwardError] →
  ∃ k',
    childLoaderEvent index (LoaderError target) k = Some k'
    ∧ loaderCalls k' = loaderCalls k ++ [CallOnError target]
    ∧ withPreReady k' = withPreReady k.
Proof.
  intros Hi Hh. unfold childLoaderEvent, runChildren. cbn [onLoaderEvent].
  rewrite (onError_run _ index target info Hi). cbn. rewrite Hh. cbn.
  by eexists.
Qed.

(** X15.  A container without content elements: the nested manager checks
    an empty batch, and when its timer runs the container's loader is told
    [onReady(true)], once. *)
Lemma container_without_content m element opts (k : Container E) :
  getLoader m element opts = Some (Nested k) →
  getContentElements element (tags k) (prefix (options m)) = [] →
  ∃ k1 k2,
    loaderTrigger "requestChildren" k = Some k1
    ∧ childrenEffects k1 = [SetTimeout EmptyBatchTask]
    ∧ loaderCalls k1 = []
    ∧ childTask EmptyBatchTask k1 = Some k2
    ∧ loaderCalls k2 = [CallOnReady true].
Proof.
  intros Hk Hnone.
  assert (Hk1 := requestChildren_run m element opts k Hk). cbn zeta in Hk1.
  rewrite Hnone in Hk1.
  destruct (getLoader_nested _ _ _ _ Hk) as (_ & _ & Heq).
  assert (Hcalls : loaderCalls k = []) by (by rewrite Heq).
  assert (Heff : childrenEffects k = []) by (by rewrite Heq).
  eexists. eexists. split; [exact Hk1|].
  split; [cbn; by rewrite Heff|]. split; [exact Hcalls|].
  unfold childTask, runChildren. cbn [childrenImReady stepChildren runTask].
  rewrite (bind_run _ _ _ _ _ _ (onPreReady_run _)), onReady_run.
  split; [reflexivity|]. cbn. by rewrite Hcalls.
Qed.

(** The other two closures, on the container [getLoader] returned. *)
Lemma requestReadyChildren_run m element opts (k : Container E) :
  getLoader m element opts = Some (Nested k) →
  loaderTrigger "reqeustReadyChildren" k =
    Some (stepChildren
            (checked (childrenImReady k) (children k))
            (subscriptions (childrenImReady k) (children k) 0
             ++ (if length (children k) =? 0
                 then [SetTimeout EmptyBatchTask] else []))
            k).
Proof.
  intros Hk.
  assert (Hcan := nested_checkable m element opts k (children k) Hk).
  destruct (getLoader_nested _ _ _ _ Hk) as (_ & _ & Heq).
  assert (Hh : loaderHandlers k =
            [("requestChildren", CheckContentElements);
             ("reqeustReadyChildren", CheckChildren);
             ("requestDestroy", DestroyChildren)]) by (by rewrite Heq).
  assert (Hi : elementInfos (childrenImReady k) = []) by (by rewrite Heq).
  unfold loaderTrigger. rewrite Hh.
  cbn [List.filter fmap list_fmap String.eqb fst snd requests request
       Ascii.eqb Bool.eqb andb].
  unfold runChildren.
  rewrite (check_run (childrenImReady k) (children k) Hcan).
  rewrite Hi. cbn -[Nat.eqb].
  rewrite notify_untriggered; [done|].
  assert (H0 := check_log_untriggered (childrenImReady k) (children k)).
  rewrite Hi in H0. exact H0.
Qed.

Lemma requestDestroy_run m element opts (k : Container E) :
  getLoader m element opts = Some (Nested k) →
  loaderTrigger "requestDestroy" k =
    Some (stepChildren (setListeners [] (cleared (childrenImReady k))) [] k).
Proof.
  intros (_ & _ & ->)%getLoader_nested.
  unfold loaderTrigger. cbn -[destroy runChildren]. unfold runChildren.
  by rewrite destroy_run.
Qed.

Lemma unnamed_signal (k : Container E) (name : string) :
  (loaderHandlers k).*1 =
    ["requestChildren"; "reqeustReadyChildren"; "requestDestroy"] →
  name ∉ ["requestChildren"; "reqeustReadyChildren"; "requestDestroy"] →
  loaderTrigger name k = Some k.
Proof.
  intros Hnames Hout. unfold loaderTrigger.
  destruct (loaderHandlers k) as [|[n1 r1] [|[n2 r2] [|[n3 r3] [|? ?]]]];
    try done.
  injection Hnames as -> -> ->.
  cbn [List.filter fst].
  destruct (String.eqb_spec "requestChildren" name) as [<-|_];
    [exfalso; apply Hout; set_solver|].
  destruct (String.eqb_spec "reqeustReadyChildren" name) as [<-|_];
    [exfalso; apply Hout; set_solver|].
  destruct (String.eqb_spec "requestDestroy" name) as [<-|_];
    [exfalso; apply Hout; set_solver|].
  done.
Qed.

(** C7 (amended).  For an element whose lower-case tag name has no
    registered loader, on a manager whose registered tags join to a
    selector list, [getLoader] makes an [ElementLoader] and a nested manager
    that is a new [ImReadyManager] with the owner's options and none of its
    batch.  It attaches three handlers to the loader and no other:
    [requestChildren] has the nested manager check the content elements and
    then listens for the nested [preReady], the signal for the children that
    know their size (the name [reqeustReadyChildren] in the code) has it
    check [children], and [requestDestroy] destroys it.  A nested [error]
    is passed to the loader's [onError], and the nested [preReady] and
    [ready] of the content elements reach the loader as one [onPreReady()]
    and one [onReady(false)], or as one [onReady(true)]: to its owner the
    container is one loader.  An element with a registered loader gets that
    loader and no nested manager. *)
Theorem container_wiring m element opts :
  getProperty (toLowerCase (tagName element)) (loaders (options m)) = None →
  isSelectorList (join ", " (keys (loaders (options m)))) = true →
  ∃ k k1,
    getLoader m element opts = Some (Nested k)
    ∧ tags k = keys (loaders (options m))
    ∧ children k = matching element (join ", " (tags k))
    ∧ containerLoader k =
        ContainerLoader element opts (existsb hasLoadingAttribute (children k))
    ∧ withPreReady k = false
    ∧ loaderCalls k = []
    ∧ loaders (options (childrenImReady k)) = loaders (options m)
    ∧ prefix (options (childrenImReady k)) = prefix (options m)
    ∧ childrenImReady k =
        mkManager (options (childrenImReady k)) 0 0 0 0 true []
          [("error", ForwardError); ("ready", ForwardReady)]
    ∧ (loaderHandlers k).*1 =
        ["requestChildren"; "reqeustReadyChildren"; "requestDestroy"]
    ∧ (let contents :=
         getContentElements element (tags k) (prefix (options m)) in
       loaderTrigger "requestChildren" k = Some k1
       ∧ k1 = stepChildren
                (setListeners
                   [("error", ForwardError); ("ready", ForwardReady);
                    ("preReady", ForwardPreReady)]
                   (checked (childrenImReady k) contents))
                (subscriptions (childrenImReady k) contents 0
                 ++ (if length contents =? 0
                     then [SetTimeout EmptyBatchTask] else []))
                k
       ∧ (∀ index target,
            index < length contents →
            ∃ k', childLoaderEvent index (LoaderError target) k1 = Some k'
                  ∧ loaderCalls k' = loaderCalls k1 ++ [CallOnError target]
                  ∧ withPreReady k' = withPreReady k1)
       ∧ (contents ≠ [] →
          ∀ events, loaderContract (length contents) events = true →
          ∃ k2, runChildren (deliver events) k1 = Some k2
                ∧ (milestoneCalls (loaderCalls k2) = [CallOnReady true]
                   ∨ milestoneCalls (loaderCalls k2)
                     = [CallOnPreReady; CallOnReady false]))
       ∧ (contents = [] →
          ∃ k2, childTask EmptyBatchTask k1 = Some k2
                ∧ loaderCalls k2 = [CallOnReady true]))
    ∧ loaderTrigger "reqeustReadyChildren" k =
        Some (stepChildren
                (checked (childrenImReady k) (children k))
                (subscriptions (childrenImReady k) (children k) 0
                 ++ (if length (children k) =? 0
                     then [SetTimeout EmptyBatchTask] else []))
                k)
    ∧ loaderTrigger "requestDestroy" k =
        Some (stepChildren (setListeners [] (cleared (childrenImReady k))) [] k)
    ∧ (∀ name,
         name ∉ ["requestChildren"; "reqeustReadyChildren"; "requestDestroy"] →
         loaderTrigger name k = Some k)
    ∧ (∀ cls element',
         getProperty (toLowerCase (tagName element')) (loaders (options m))
           = Some cls →
         getLoader m element' opts
         = Some (Registered (RegisteredLoader cls element' opts))).
Proof.
  intros Hnone Hsel.
  assert (Hk : ∃ k, getLoader m element opts = Some (Nested k)).
  { unfold getLoader, querySelectorAll. rewrite Hnone, Hsel. by eexists. }
  destruct Hk as [k Hk].
  destruct (getLoader_nested _ _ _ _ Hk) as (_ & _ & Heq).
  assert (Hk1 := requestChildren_run m element opts k Hk). cbn zeta in Hk1.
  assert (Hcalls : loaderCalls k = []) by (by rewrite Heq).
  exists k. eexists. split; [exact Hk|].
  split; [by rewrite Heq|]. split; [by rewrite Heq|].
  split; [by rewrite Heq|]. split; [by rewrite Heq|].
  split; [by rewrite Heq|]. split; [by rewrite Heq|].
  split; [by rewrite Heq|]. split; [by rewrite Heq|].
  split; [by rewrite Heq|].
  split.
  { cbn zeta. split; [exact Hk1|]. split; [reflexivity|]. split; [|split].
    - intros index target Hlt.
      destruct (lookup_lt_is_Some_2
                  (freshInfo (childrenImReady k)
                     <$> getContentElements element (tags k)
                           (prefix (options m))) index) as [info Hinfo];
        [by rewrite length_fmap|].
      set (m1 := setListeners
                   [("error", ForwardError); ("ready", ForwardReady);
                    ("preReady", ForwardPreReady)]
                   (checked (childrenImReady k)
                      (getContentElements element (tags k)
                         (prefix (options m))))).
      assert (Hinfo' : elementInfos m1 !! index = Some info) by exact Hinfo.
      unfold childLoaderEvent, runChildren.
      cbn [onLoaderEvent childrenImReady stepChildren]. fold m1.
      rewrite (onError_run m1 index target info Hinfo'). cbn. by eexists.
    - intros Hne events Hc.
      assert (Hn : 0 < length (getContentElements element (tags k)
                                 (prefix (options m)))).
      { destruct (getContentElements _ _ _); [done|cbn; lia]. }
      match goal with
      | |- context [runChildren _ ?k1] =>
          destruct (forwarded_once k1 events) as (k2 & Hrun & Hcase);
            try reflexivity
      end.
      + cbn. by rewrite length_fmap.
      + exact Hn.
      + exact Hc.
      + exists k2. split; [exact Hrun|].
        cbn [stepChildren loaderCalls] in Hcase.
        by rewrite Hcalls in Hcase.
    - intros Hempty. rewrite Hempty. eexists.
      unfold childTask, runChildren. cbn [childrenImReady stepChildren runTask].
      rewrite (bind_run _ _ _ _ _ _ (onPreReady_run _)), onReady_run.
      split; [reflexivity|]. cbn. by rewrite Hcalls. }
  split; [by apply (requestReadyChildren_run m element opts)|].
  split; [by apply (requestDestroy_run m element opts)|].
  split; [intros name; apply unnamed_signal; by rewrite Heq|].
  intros cls element' Hcls. unfold getLoader. by rewrite Hcls.
Qed.

End Properties.

(** ** The properties on the page *)

Import Page.

Example halfway_reached :
  ∃ log,
    (check [Img1; Img2] ;; deliver [(0, LoaderReady true false)]) imReady
    = Some (tt, halfway, log).
Proof. eexists. vm_compute. reflexivity. Qed.



(** C3, as stated, fails.  When a non-empty batch is checked before the
    callback of an empty [check] runs, the [ready] the callback triggers
    carries the [totalCount] of that batch, 2, not 0. *)
Lemma scheduled_ready_reads_later_batch :
  ∃ m1 log1 m2 log2 m3 log3,
    check [] imReady = Some (tt, m1, log1)
    ∧ log1 = [SetTimeout EmptyBatchTask]
    ∧ check [Img1; Img2] m1 = Some (tt, m2, log2)
    ∧ runTask EmptyBatchTask m2 = Some (tt, m3, log3)
    ∧ log3 = [Trigger (EvPreReady (OnPreReady.mk 0 2 false false)) [];
              Trigger (EvReady (OnReady.mk 0 0 2)) []].
Proof.
  eexists _, _, _, _, _, _.
  split; [vm_compute; reflexivity|]. split; [reflexivity|].
  split; [vm_compute; reflexivity|].
  split; [vm_compute; reflexivity|]. reflexivity.
Qed.

(** C5, as stated, fails.  On a manager without a registered loader
    ([new ImReadyManager()]) the selector of [getLoader] is the empty string
    and [check] of one image throws: it has run [clear()], which left
    [totalCount] at 0, and it never sets [totalCount] to 1. *)
Lemma check_throws_without_loader :
  checkable bare [Img1] = false
  ∧ check [Img1] bare = None
  ∧ ∃ m' log,
      clear bare = Some (tt, m', log)
      ∧ getTotalCount m' = 0
      ∧ getTotalCount m' ≠ length [Img1].
Proof.
  split; [reflexivity|]. split; [vm_compute; reflexivity|].
  eexists _, _. split; [vm_compute; reflexivity|]. split; [reflexivity|].
  cbn. lia.
Qed.

Lemma totalCount_fixed_by_check_witness :
  checkable imReady [Img1; Img2] = true
  ∧ ∃ m' log,
      check [Img1; Img2] imReady = Some (tt, m', log)
      ∧ totalCount m' = 2
      ∧ getTotalCount m' = 2
      ∧ ∀ (ops : list Operation) m'' log',
          performAll ops m' = Some (tt, m'', log') →
          getTotalCount m'' = 2.
Proof.
  split; [reflexivity|].
  apply (totalCount_fixed_by_check imReady [Img1; Img2]). reflexivity.
Defined.

(** C2, as stated, fails.  When [checkPreReady(0)] runs a second time on a
    batch of one resource it returns true, and the counter is 2, not
    [totalCount = 1]. *)
Lemma checkPreReady_true_beyond_total :
  ∃ m log,
    (check [Img1] ;; checkPreReady 0 ;; checkPreReady 0) imReady
    = Some (true, m, log)
    ∧ preReadyCount m = 2
    ∧ totalCount m = 1
    ∧ preReadyCount m ≠ totalCount m.
Proof.
  eexists _, _. split; [vm_compute; reflexivity|].
  split; [reflexivity|]. split; [reflexivity|]. cbn. lia.
Qed.

Lemma checkPreReady_checkReady_bookkeeping_witness :
  elementInfos halfway !! 1 = Some secondWaiting
  ∧ (∃ b m',
       checkPreReady 1 halfway = Some (b, m', [])
       ∧ m' = setPreReadyCount (S (preReadyCount halfway))
                (setElementInfos
                   (<[1 := ElementInfo.setIsPreReady true secondWaiting]>
                      (elementInfos halfway)) halfway)
       ∧ elementInfos m' !! 1
         = Some (ElementInfo.setIsPreReady true secondWaiting)
       ∧ preReadyCount m' = S (preReadyCount halfway)
       ∧ (b = true ↔ totalCount m' ≤ preReadyCount m')
       ∧ (preReadyCount halfway < totalCount halfway →
          (b = true ↔ preReadyCount m' = totalCount m')))
  ∧ (∃ b m',
       checkReady 1 halfway = Some (b, m', [])
       ∧ m' = setReadyCount (S (readyCount halfway))
                (setElementInfos
                   (<[1 := ElementInfo.setIsReady true secondWaiting]>
                      (elementInfos halfway)) halfway)
       ∧ elementInfos m' !! 1
         = Some (ElementInfo.setIsReady true secondWaiting)
       ∧ readyCount m' = S (readyCount halfway)
       ∧ (b = true ↔ totalCount m' ≤ readyCount m')
       ∧ (readyCount halfway < totalCount halfway →
          (b = true ↔ readyCount m' = totalCount m'))).
Proof.
  split; [reflexivity|].
  apply (checkPreReady_checkReady_bookkeeping halfway 1 secondWaiting).
  reflexivity.
Defined.

Lemma onError_counts_witness :
  elementInfos halfway !! 1 = Some secondWaiting
  ∧ checkable imReady [Img1; Img2] = true
  ∧ inBatch (length [Img1; Img2]) failures = true
  ∧ (∃ m',
       onError 1 Img2 halfway =
         Some (tt, m',
               [Trigger
                  (EvError
                     (OnError.mk (ElementInfo.element secondWaiting) 1 Img2
                        (getErrorCount m') (totalErrorCount m')))
                  (handlersFor "error" halfway)])
       ∧ elementInfos m' =
           <[1 := ElementInfo.setHasError true secondWaiting]>
             (elementInfos halfway)
       ∧ elementInfos m' !! 1
         = Some (ElementInfo.setHasError true secondWaiting)
       ∧ totalErrorCount m' = S (totalErrorCount halfway)
       ∧ getErrorCount m' =
           length (List.filter ElementInfo.hasError (elementInfos m')))
  ∧ (∃ m1 log1 m2 log2,
       check [Img1; Img2] imReady = Some (tt, m1, log1)
       ∧ deliver failures m1 = Some (tt, m2, log2)
       ∧ getErrorCount m2 = 2
       ∧ totalErrorCount m2 = 3
       ∧ getErrorCount m2 ≤ totalErrorCount m2).
Proof.
  split; [reflexivity|]. split; [reflexivity|]. split; [reflexivity|].
  apply (onError_counts halfway 1 Img2 secondWaiting imReady
           [Img1; Img2] failures); reflexivity.
Defined.

(** C7, as stated, fails.  On a manager without a registered loader every
    element is a container, the selector [getLoader] hands to
    [querySelectorAll] is the empty string, and [getLoader] throws: it makes
    no nested manager. *)
Lemma getLoader_throws_without_loader :
  getProperty (toLowerCase (tagName Div)) (loaders (options bare)) = None
  ∧ join ", " (keys (loaders (options bare))) = ""
  ∧ getLoader bare Div {| loaderPrefix := "data-" |} = None.
Proof. split; [reflexivity|]. split; reflexivity. Qed.

Lemma container_wiring_witness :
  getProperty (toLowerCase (tagName Div)) (loaders (options imReady)) = None
  ∧ isSelectorList (join ", " (keys (loaders (options imReady)))) = true
  ∧ ∃ k k1,
      getLoader imReady Div {| loaderPrefix := "data-" |} = Some (Nested k)
      ∧ children k = [Img1; Img2]
      ∧ (loaderHandlers k).*1 =
          ["requestChildren"; "reqeustReadyChildren"; "requestDestroy"]
      ∧ loaderTrigger "requestChildren" k = Some k1
      ∧ totalCount (childrenImReady k1) = 2
      ∧ (∃ k2, runChildren (deliver orderly) k1 = Some k2
               ∧ (milestoneCalls (loaderCalls k2) = [CallOnReady true]
                  ∨ milestoneCalls (loaderCalls k2)
                    = [CallOnPreReady; CallOnReady false]))
      ∧ (∃ k', loaderTrigger "reqeustReadyChildren" k = Some k'
               ∧ totalCount (childrenImReady k') = 2)
      ∧ (∃ k', loaderTrigger "requestDestroy" k = Some k'
               ∧ listeners (childrenImReady k') = []).
Proof.
  assert (Hnone : getProperty (toLowerCase (tagName Div))
                    (loaders (options imReady)) = None) by reflexivity.
  assert (Hsel : isSelectorList (join ", " (keys (loaders (options imReady))))
                 = true) by reflexivity.
  split; [exact Hnone|]. split; [exact Hsel|].
  destruct (container_wiring imReady Div {| loaderPrefix := "data-" |}
              Hnone Hsel)
    as (k & k1 & Hk & Htags & Hchildren & _ & _ & _ & _ & _ & _ & Hnames
        & Hcontent & Hready & Hdestroy & _).
  cbn zeta in Hcontent.
  destruct Hcontent as (Hk1 & Heq & _ & Honce & _).
  assert (Hcontents : getContentElements Div (tags k)
                        (prefix (options imReady)) = [Img1; Img2])
    by (rewrite Htags; reflexivity).
  rewrite Hcontents in Heq, Honce.
  exists k, k1. split; [exact Hk|].
  split; [rewrite Hchildren, Htags; reflexivity|].
  split; [exact Hnames|]. split; [exact Hk1|].
  split; [rewrite Heq; reflexivity|].
  split; [apply Honce; [done|reflexivity]|].
  split.
  - eexists. split; [exact Hready|]. rewrite Hchildren, Htags. reflexivity.
  - eexists. split; [exact Hdestroy|]. reflexivity.
Defined.

Lemma repeated_events_overcount_witness :
  elementInfos halfway !! 0 = Some firstReady
  ∧ ElementInfo.isPreReady firstReady = true
  ∧ ElementInfo.isReady firstReady = true
  ∧ checkable imReady [Img1; Img2] = true
  ∧ (∃ b m', checkPreReady 0 halfway = Some (b, m', [])
       ∧ preReadyCount m' = S (preReadyCount halfway)
       ∧ (b = true ↔ totalCount halfway ≤ S (preReadyCount halfway)))
  ∧ (∃ b m', checkReady 0 halfway = Some (b, m', [])
       ∧ readyCount m' = S (readyCount halfway)
       ∧ (b = true ↔ totalCount halfway ≤ S (readyCount halfway)))
  ∧ (∃ m1 log1 m2 log2,
       check [Img1; Img2] imReady = Some (tt, m1, log1)
       ∧ deliver (replicate (2 + 1) (0, LoaderPreReady false)) m1
         = Some (tt, m2, log2)
       ∧ preReadyCount m2 = 2 + 1
       ∧ length (List.filter ElementInfo.isPreReady (elementInfos m2)) = 1
       ∧ isPreReady m2 = false
       ∧ batchPreReadyCount log2 = 2)
  ∧ (∃ m1 log1 m2 log2,
       check [Img1; Img2] imReady = Some (tt, m1, log1)
       ∧ deliver (replicate (2 + 1) (0, LoaderReady false false)) m1
         = Some (tt, m2, log2)
       ∧ readyCount m2 = 2 + 1
       ∧ length (List.filter ElementInfo.isReady (elementInfos m2)) = 1
       ∧ isReady m2 = false
       ∧ batchReadyCount log2 = 2).
Proof.
  split; [reflexivity|]. split; [reflexivity|]. split; [reflexivity|].
  split; [reflexivity|].
  apply (repeated_events_overcount halfway 0 firstReady imReady
           Img1 Img2 [] 1 false); reflexivity.
Defined.

(** ** Further properties *)

Section Further.
Context `{Dom E}.
Implicit Type m : Manager E.
Implicit Type info : ElementInfo.t E.

(** *** The handler of one loader event, event by event *)

Lemma onLoaderEvent_exact m index e info :
  elementInfos m !! index = Some info →
  let m' := afterEvent index e info m in
  onLoaderEvent index e m =
    Some (tt, m',
          elementEvents index e info m
          ++ (if firesPreReady e m
              then [Trigger (EvPreReady (preReadyPayload m'))
                      (handlersFor "preReady" m)]
              else [])
          ++ (if firesReady e m
              then [Trigger (EvReady (readyPayload m'))
                      (handlersFor "ready" m)]
              else [])).
Proof.
  intros Hi. destruct m as [o r p t te over infos ls]. cbn in Hi.
  unfold afterEvent, firesPreReady, firesReady, elementEvents,
    preReadyElementEvent, readyElementEvent, preReadyPayload, readyPayload.
  destruct e as [target|hasL|[|] hasL].
  - unfold_methods. lookup_slot Hi. reflexivity.
  - unfold_methods. lookup_slot Hi. rewrite (Nat.ltb_antisym t).
    destruct (t <=? S p); cbn; lookup_slot Hi; reflexivity.
  - unfold_methods. lookup_slot Hi. rewrite (Nat.ltb_antisym t).
    destruct (t <=? S p); cbn -[Nat.ltb Nat.leb]; lookup_slot Hi;
      rewrite (Nat.ltb_antisym t);
      destruct (t <=? S r); cbn; lookup_slot Hi; reflexivity.
  - unfold_methods. lookup_slot Hi. rewrite (Nat.ltb_antisym t).
    destruct (t <=? S r); cbn; lookup_slot Hi; reflexivity.
Qed.

(** *** What a run of handlers shows *)

Lemma deliver_observed (events : list (nat * LoaderEvent E)) m :
  inBatch (length (elementInfos m)) events = true →
  ∃ m' log, deliver events m = Some (tt, m', log) ∧ Observed m events m' log.
Proof.
  revert m. induction events as [|[index e] events IH]; intros m Hin.
  - exists m, []. split; [done|]. split; cbn; try done.
    by rewrite orb_false_r.
  - cbn in Hin. apply andb_prop in Hin as [Hi Hin].
    apply Nat.ltb_lt in Hi.
    destruct (lookup_lt_is_Some_2 _ _ Hi) as [info Hinfo].
    assert (Hrun := onLoaderEvent_exact m index e info Hinfo).
    cbn zeta in Hrun.
    set (m1 := afterEvent index e info m) in *.
    assert (Hlen : length (elementInfos m1) = length (elementInfos m))
      by (cbn; apply length_insert).
    destruct (IH m1) as (m' & log & Hrest & O); [by rewrite Hlen|].
    destruct O as [O1 O2 O3 O4 O5].
    eexists m', _. split.
    + cbn [deliver]. rewrite (bind_run _ _ _ _ _ _ Hrun), Hrest. reflexivity.
    + split.
      * unfold preReadyElementCounts in *. rewrite !omap_app, O1.
        rewrite indicesOf_cons, length_app.
        unfold firesPreReady, firesReady.
        destruct e as [t|h|[|] h]; cbn -[Nat.leb seq];
          repeat match goal with
                 | |- context [?a <=? ?b] => destruct (a <=? b)
                 end; cbn; reflexivity.
      * unfold readyElementCounts in *. rewrite !omap_app, O2.
        rewrite indicesOf_cons, length_app.
        unfold firesPreReady, firesReady.
        destruct e as [t|h|[|] h]; cbn -[Nat.leb seq];
          repeat match goal with
                 | |- context [?a <=? ?b] => destruct (a <=? b)
                 end; cbn; reflexivity.
      * unfold errorEvents in *. rewrite !omap_app, O3.
        unfold firesPreReady, firesReady.
        destruct e as [t|h|[|] h]; cbn -[Nat.leb];
          repeat match goal with
                 | |- context [?a <=? ?b] => destruct (a <=? b)
                 end; cbn; reflexivity.
      * rewrite O4. rewrite !batchPreReadyCount_app.
        unfold firesPreReady.
        destruct e as [t|h|[|] h]; cbn -[Nat.leb Nat.ltb];
          repeat match goal with
                 | |- context [?a <=? ?b] => destruct (a <=? b)
                 end; cbn -[Nat.ltb];
          rewrite ?orb_true_r; try done;
          by destruct (isPreReadyOver m).
      * unfold destroyedLoaders in *. rewrite !omap_app, O5.
        unfold firesPreReady, firesReady.
        destruct e as [t|h|[|] h]; cbn -[Nat.leb];
          repeat match goal with
                 | |- context [?a <=? ?b] => destruct (a <=? b)
                 end; cbn; reflexivity.
Qed.

Lemma checked_length m (elements : list E) :
  length (elementInfos (checked m elements)) = length elements.
Proof. cbn. apply length_fmap. Qed.

(** *** What a run with pending timers shows *)





(** X1.  After a [check(elements)] that returns, whatever in-range events
    the loaders deliver, the [preReadyElement] events carry [preReadyCount]
    1, 2, 3, ... in the order they are triggered, one for every pre-ready
    report, and the [readyElement] events carry [readyCount] 1, 2, 3, ...
    together with the slots in the order their loaders became ready; all
    carry the batch's [totalCount]. *)
Theorem element_counts_run_up m (elements : list E) events :
  checkable m elements = true →
  inBatch (length elements) events = true →
  ∃ m1 log1 m2 log,
    check elements m = Some (tt, m1, log1)
    ∧ deliver events m1 = Some (tt, m2, log)
    ∧ preReadyElementCounts log =
        (λ c, (c, length elements))
          <$> seq 1 (length (indicesOf countsPreReady events))
    ∧ readyElementCounts log =
        (λ ci, (ci.1, ci.2, length elements))
          <$> zip (seq 1 (length (indicesOf countsReady events)))
                  (indicesOf countsReady events).
Proof.
  intros Hcan Hin.
  destruct (deliver_observed events (checked m elements))
    as (m2 & log & Hrun & O); [by rewrite checked_length|].
  exists (checked m elements). eexists. exists m2, log.
  split; [by apply check_run|]. split; [done|].
  destruct O as [O1 O2 _ _ _]. by split.
Qed.

(** X2.  Every [error] a loader delivers for a slot of the batch is passed
    on as one [error] event with that slot and that target, in the order of
    delivery, and nothing else triggers an [error] event; this holds on any
    fields, whatever was counted before. *)
Theorem errors_are_passed_on m events :
  inBatch (length (elementInfos m)) events = true →
  ∃ m' log,
    deliver events m = Some (tt, m', log)
    ∧ errorEvents log = errorsOf events
    ∧ totalErrorCount m' = totalErrorCount m + length (errorsOf events).
Proof.
  intros Hin.
  destruct (deliver_observed events m) as (m' & log & Hrun & O); [done|].
  destruct (deliver_run events m Hin) as (m'' & log' & Hrun' & D).
  rewrite Hrun in Hrun'. injection Hrun' as <- <-.
  exists m', log. split; [done|]. destruct O as [_ _ O3 _ _].
  split; [done|]. rewrite (delivered_totalErrorCount _ _ _ _ D).
  f_equal. clear. induction events as [|[index e] events IH]; [done|].
  rewrite indicesOf_cons, length_app, IH. by destruct e.
Qed.




(** X5.  The handler of a loader event throws exactly when its slot is
    outside the current batch -- so every event that arrives after
    [clear()] or after a [check()] of fewer elements than its slot does --
    and a run of handlers goes through exactly when all its events name
    slots of the batch. *)
Theorem handlers_throw_outside_batch m index (e : LoaderEvent E) events :
  (onLoaderEvent index e m = None ↔ length (elementInfos m) ≤ index)
  ∧ (deliver events m = None ↔
     inBatch (length (elementInfos m)) events = false)
  ∧ (∃ m' log, clear m = Some (tt, m', log)
               ∧ onLoaderEvent index e m' = None).
Proof.
  split; [|split].
  - split.
    + intros Hnone. destruct (elementInfos m !! index) as [info|] eqn:Hi.
      * destruct (onLoaderEvent_run m index e info Hi) as (per & Hrun & _).
        by rewrite Hrun in Hnone.
      * by apply lookup_ge_None.
    + intros Hge. apply onLoaderEvent_out_of_range. by apply lookup_ge_None.
  - split.
    + intros Hnone. destruct (inBatch _ events) eqn:Hin; [|done].
      destruct (deliver_run events m Hin) as (m' & log & Hrun & _).
      by rewrite Hrun in Hnone.
    + revert m. induction events as [|[i ev] events IH]; intros m Hin;
        [done|].
      cbn [deliver]. unfold bind.
      destruct (elementInfos m !! i) as [info|] eqn:Hi.
      * destruct (onLoaderEvent_run m i ev info Hi) as (per & Hrun & _).
        rewrite Hrun. rewrite IH; [done|].
        cbn -[Nat.ltb] in Hin. cbn. rewrite length_insert.
        apply lookup_lt_Some in Hi. apply Nat.ltb_lt in Hi.
        by rewrite Hi in Hin.
      * by rewrite onLoaderEvent_out_of_range.
  - eexists _, _. split; [apply clear_run|].
    by apply onLoaderEvent_out_of_range.
Qed.

(** *** Counters and flags *)

Lemma flagged_slots (flag : ElementInfo.t E → bool)
    (kind : LoaderEvent E → bool) m0 (elements : list E) events
    (infos : list (ElementInfo.t E)) :
  (∀ j info, flag (infoAfter events j info) =
             flag info || bool_decide (j ∈ indicesOf kind events)) →
  (∀ element, flag (freshInfo m0 element) = false) →
  inBatch (length elements) events = true →
  length infos = length elements →
  (∀ j, infos !! j
        = infoAfter events j <$> elementInfos (checked m0 elements) !! j) →
  length (List.filter flag infos)
  = length (remove_dups (indicesOf kind events)).
Proof.
  intros Hflag Hfresh Hin Hlen Hinfos.
  rewrite (filter_length_by_index flag (λ j, j ∈ indicesOf kind events) _ 0).
  - rewrite Hlen. apply distinct_slots. by apply indicesOf_inBatch.
  - intros j x Hj.
    rewrite Hinfos, checked_lookup in Hj.
    destruct (elements !! j) as [element|]; [|done].
    cbn [fmap option_fmap option_map] in Hj. injection Hj as <-.
    rewrite Hflag, Hfresh. cbn. by rewrite bool_decide_eq_true.
Qed.

Lemma flagged_by_index (flag : ElementInfo.t E → bool)
    (kind : LoaderEvent E → bool) m0 (elements : list E) events m2 log :
  (∀ j info, flag (infoAfter events j info) =
             flag info || bool_decide (j ∈ indicesOf kind events)) →
  (∀ element, flag (freshInfo m0 element) = false) →
  inBatch (length elements) events = true →
  Delivered (checked m0 elements) events m2 log →
  length (List.filter flag (elementInfos m2))
  = length (remove_dups (indicesOf kind events)).
Proof.
  intros Hflag Hfresh Hin D.
  apply (flagged_slots flag kind m0 elements events); try done.
  - by rewrite (delivered_length _ _ _ _ D), checked_length.
  - apply (delivered_infos _ _ _ _ D).
Qed.

Lemma length_remove_dups_NoDup (slots : list nat) :
  NoDup slots → length (remove_dups slots) = length slots.
Proof.
  intros Hnd. apply Permutation_length, NoDup_Permutation.
  - apply NoDup_remove_dups.
  - done.
  - intros x. apply elem_of_remove_dups.
Qed.

Lemma forallb_filter_length {A} (f : A → bool) (l : list A) :
  forallb f l = true ↔ length (List.filter f l) = length l.
Proof.
  induction l as [|a l IH]; [done|]. cbn.
  assert (Hle := List.filter_length_le f l).
  destruct (f a); cbn.
  - rewrite IH. lia.
  - split; [done|]. lia.
Qed.

(** X6.  While no loader reports a milestone twice, the counters count the
    flagged entries: after a [check(elements)] that returns and any in-range
    events in which
    no slot has two pre-ready reports and none has two ready reports,
    [preReadyCount] is the number of entries with [isPreReady] and
    [readyCount] the number with [isReady], so [isPreReady()] holds exactly
    when [preReadyCount = totalCount], and [isReady()] exactly when
    [readyCount = totalCount]. *)
Theorem counters_count_flagged_entries m (elements : list E) events :
  checkable m elements = true →
  inBatch (length elements) events = true →
  bool_decide (NoDup (indicesOf countsPreReady events)) = true →
  bool_decide (NoDup (indicesOf countsReady events)) = true →
  ∃ m1 log1 m2 log,
    check elements m = Some (tt, m1, log1)
    ∧ deliver events m1 = Some (tt, m2, log)
    ∧ preReadyCount m2
      = length (List.filter ElementInfo.isPreReady (elementInfos m2))
    ∧ readyCount m2
      = length (List.filter ElementInfo.isReady (elementInfos m2))
    ∧ preReadyCount m2 ≤ totalCount m2
    ∧ readyCount m2 ≤ totalCount m2
    ∧ (isPreReady m2 = true ↔ preReadyCount m2 = totalCount m2)
    ∧ (isReady m2 = true ↔ readyCount m2 = totalCount m2).
Proof.
  intros Hcan Hin Hp%bool_decide_eq_true Hr%bool_decide_eq_true.
  destruct (deliver_run events (checked m elements))
    as (m2 & log & Hrun & D); [by rewrite checked_length|].
  exists (checked m elements). eexists. exists m2, log.
  split; [by apply check_run|]. split; [done|].
  assert (Hpc : preReadyCount m2
            = length (List.filter ElementInfo.isPreReady (elementInfos m2))).
  { rewrite (flagged_by_index _ countsPreReady m elements events m2 log);
      [|apply infoAfter_isPreReady|done|done|done].
    rewrite length_remove_dups_NoDup by done.
    by rewrite (delivered_preReadyCount _ _ _ _ D). }
  assert (Hrc : readyCount m2
            = length (List.filter ElementInfo.isReady (elementInfos m2))).
  { rewrite (flagged_by_index _ countsReady m elements events m2 log);
      [|apply infoAfter_isReady|done|done|done].
    rewrite length_remove_dups_NoDup by done.
    by rewrite (delivered_readyCount _ _ _ _ D). }
  assert (Htot : totalCount m2 = length (elementInfos m2)).
  { rewrite (delivered_totalCount _ _ _ _ D), (delivered_length _ _ _ _ D).
    by rewrite checked_length. }
  split; [done|]. split; [done|].
  split; [rewrite Hpc, Htot; apply List.filter_length_le|].
  split; [rewrite Hrc, Htot; apply List.filter_length_le|].
  unfold isPreReady, isReady. rewrite !forallb_filter_length.
  rewrite <- Hpc, <- Hrc, Htot. done.
Qed.

(** *** The order of delivery *)

Lemma indicesOf_Permutation kind (ev1 ev2 : list (nat * LoaderEvent E)) :
  ev1 ≡ₚ ev2 → indicesOf kind ev1 ≡ₚ indicesOf kind ev2.
Proof.
  intros Hperm. unfold indicesOf. apply fmap_Permutation.
  induction Hperm as [|x l l' _ IH|x y l|l l' l'' _ IH1 _ IH2]; cbn.
  - done.
  - destruct (kind x.2); [by constructor|done].
  - destruct (kind x.2), (kind y.2); try done. apply perm_swap.
  - by etrans.
Qed.

Lemma inBatch_Permutation n (ev1 ev2 : list (nat * LoaderEvent E)) :
  ev1 ≡ₚ ev2 → inBatch n ev1 = inBatch n ev2.
Proof.
  intros Hperm. unfold inBatch.
  induction Hperm as [|x l l' _ IH|x y l|l l' l'' _ IH1 _ IH2];
    cbn [forallb].
  - done.
  - by rewrite IH.
  - by rewrite !andb_assoc, (andb_comm (y.1 <? n)).
  - by etrans.
Qed.

Lemma flags_after_Permutation (flag : ElementInfo.t E → bool)
    (kind : LoaderEvent E → bool) m (ev1 ev2 : list (nat * LoaderEvent E))
    m1 log1 m2 log2 :
  (∀ events j info, flag (infoAfter events j info) =
                    flag info || bool_decide (j ∈ indicesOf kind events)) →
  ev1 ≡ₚ ev2 →
  Delivered m ev1 m1 log1 →
  Delivered m ev2 m2 log2 →
  flag <$> elementInfos m1 = flag <$> elementInfos m2.
Proof.
  intros Hflag Hperm D1 D2. apply list_eq. intros j.
  rewrite !list_lookup_fmap.
  rewrite (delivered_infos _ _ _ _ D1), (delivered_infos _ _ _ _ D2).
  destruct (elementInfos m !! j) as [info|]; [|done]. cbn.
  rewrite !Hflag. do 2 f_equal. apply bool_decide_ext.
  by rewrite (indicesOf_Permutation kind _ _ Hperm).
Qed.

(** X7.  The order in which the loaders deliver their events does not
    matter for the outcome: two runs of the same in-range events in
    different orders, from the same fields, end with the same counters, the
    same [isPreReady], [isReady] and [hasError] flag in every slot, and have
    triggered the batch [preReady] and the batch [ready] the same number of
    times. *)
Theorem delivery_order_does_not_matter m
    (events events' : list (nat * LoaderEvent E)) :
  inBatch (length (elementInfos m)) events = true →
  events ≡ₚ events' →
  ∃ m1 log m1' log',
    deliver events m = Some (tt, m1, log)
    ∧ deliver events' m = Some (tt, m1', log')
    ∧ preReadyCount m1 = preReadyCount m1'
    ∧ readyCount m1 = readyCount m1'
    ∧ totalErrorCount m1 = totalErrorCount m1'
    ∧ ElementInfo.isPreReady <$> elementInfos m1
      = ElementInfo.isPreReady <$> elementInfos m1'
    ∧ ElementInfo.isReady <$> elementInfos m1
      = ElementInfo.isReady <$> elementInfos m1'
    ∧ ElementInfo.hasError <$> elementInfos m1
      = ElementInfo.hasError <$> elementInfos m1'
    ∧ batchPreReadyCount log = batchPreReadyCount log'
    ∧ batchReadyCount log = batchReadyCount log'.
Proof.
  intros Hin Hperm.
  destruct (deliver_run events m Hin) as (m1 & log & Hrun & D).
  destruct (deliver_run events' m) as (m1' & log' & Hrun' & D');
    [by rewrite <- (inBatch_Permutation _ _ _ Hperm)|].
  exists m1, log, m1', log'. split; [done|]. split; [done|].
  assert (Hlen : ∀ kind, length (indicesOf kind events)
                         = length (indicesOf kind events')).
  { intros kind. by rewrite (indicesOf_Permutation kind _ _ Hperm). }
  split.
  { rewrite (delivered_preReadyCount _ _ _ _ D),
      (delivered_preReadyCount _ _ _ _ D'). by rewrite Hlen. }
  split.
  { rewrite (delivered_readyCount _ _ _ _ D),
      (delivered_readyCount _ _ _ _ D'). by rewrite Hlen. }
  split.
  { rewrite (delivered_totalErrorCount _ _ _ _ D),
      (delivered_totalErrorCount _ _ _ _ D'). by rewrite Hlen. }
  split.
  { eapply (flags_after_Permutation _ countsPreReady); try done.
    intros. apply infoAfter_isPreReady. }
  split.
  { eapply (flags_after_Permutation _ countsReady); try done.
    intros. apply infoAfter_isReady. }
  split.
  { eapply (flags_after_Permutation _ countsError); try done.
    intros. apply infoAfter_hasError. }
  split.
  { rewrite (delivered_batchPreReady _ _ _ _ D),
      (delivered_batchPreReady _ _ _ _ D'). by rewrite Hlen. }
  rewrite (delivered_batchReady _ _ _ _ D), (delivered_batchReady _ _ _ _ D').
  by rewrite Hlen.
Qed.

(** *** Errors and milestones *)

Lemma indicesOf_withoutErrors kind (events : list (nat * LoaderEvent E)) :
  (∀ e, kind e = true → countsError e = false) →
  indicesOf kind (withoutErrors events) = indicesOf kind events.
Proof.
  intros Hkind. induction events as [|[index e] events IH]; [done|].
  rewrite indicesOf_cons, <- IH. unfold withoutErrors. cbn [List.filter snd].
  destruct (countsError e) eqn:Herr; cbn [negb].
  - destruct (kind e) eqn:Hk; [|done]. apply Hkind in Hk. congruence.
  - by rewrite indicesOf_cons.
Qed.

Lemma inBatch_withoutErrors n (events : list (nat * LoaderEvent E)) :
  inBatch n events = true → inBatch n (withoutErrors events) = true.
Proof.
  unfold inBatch, withoutErrors. rewrite !forallb_forall.
  intros Hall p Hp%filter_In. apply Hall, Hp.
Qed.

Lemma flags_after (flag : ElementInfo.t E → bool)
    (kind : LoaderEvent E → bool) m (ev1 ev2 : list (nat * LoaderEvent E))
    m1 log1 m2 log2 :
  (∀ events j info, flag (infoAfter events j info) =
                    flag info || bool_decide (j ∈ indicesOf kind events)) →
  indicesOf kind ev1 = indicesOf kind ev2 →
  Delivered m ev1 m1 log1 →
  Delivered m ev2 m2 log2 →
  flag <$> elementInfos m1 = flag <$> elementInfos m2.
Proof.
  intros Hflag Heq D1 D2. apply list_eq. intros j.
  rewrite !list_lookup_fmap.
  rewrite (delivered_infos _ _ _ _ D1), (delivered_infos _ _ _ _ D2).
  destruct (elementInfos m !! j) as [info|]; [|done]. cbn.
  by rewrite !Hflag, Heq.
Qed.

(** X8.  Errors do not touch the milestones: a run of in-range events and
    the same run with its [error] events left out end with the same
    [preReadyCount] and [readyCount], the same [isPreReady] and [isReady]
    flags and the same [isPreReadyOver], and trigger the same
    [preReadyElement] and [readyElement] counters and the same number of
    batch events. *)
Theorem errors_leave_milestones_alone m (events : list (nat * LoaderEvent E)) :
  inBatch (length (elementInfos m)) events = true →
  ∃ m1 log m1' log',
    deliver events m = Some (tt, m1, log)
    ∧ deliver (withoutErrors events) m = Some (tt, m1', log')
    ∧ preReadyCount m1 = preReadyCount m1'
    ∧ readyCount m1 = readyCount m1'
    ∧ ElementInfo.isPreReady <$> elementInfos m1
      = ElementInfo.isPreReady <$> elementInfos m1'
    ∧ ElementInfo.isReady <$> elementInfos m1
      = ElementInfo.isReady <$> elementInfos m1'
    ∧ isPreReadyOver m1 = isPreReadyOver m1'
    ∧ preReadyElementCounts log = preReadyElementCounts log'
    ∧ readyElementCounts log = readyElementCounts log'
    ∧ batchPreReadyCount log = batchPreReadyCount log'
    ∧ batchReadyCount log = batchReadyCount log'.
Proof.
  intros Hin.
  assert (Hin' := inBatch_withoutErrors _ _ Hin).
  assert (Hp : indicesOf countsPreReady (withoutErrors events)
               = indicesOf countsPreReady events).
  { apply indicesOf_withoutErrors. by intros [t|h|w h]. }
  assert (Hr : indicesOf countsReady (withoutErrors events)
               = indicesOf countsReady events).
  { apply indicesOf_withoutErrors. by intros [t|h|w h]. }
  destruct (deliver_run events m Hin) as (m1 & log & Hrun & D).
  destruct (deliver_run _ m Hin') as (m1' & log' & Hrun' & D').
  destruct (deliver_observed events m Hin) as (? & ? & Hrun2 & O).
  rewrite Hrun in Hrun2. injection Hrun2 as <- <-.
  destruct (deliver_observed _ m Hin') as (? & ? & Hrun2 & O').
  rewrite Hrun' in Hrun2. injection Hrun2 as <- <-.
  exists m1, log, m1', log'. split; [done|]. split; [done|].
  assert (Hbp : batchPreReadyCount log = batchPreReadyCount log').
  { rewrite (delivered_batchPreReady _ _ _ _ D),
      (delivered_batchPreReady _ _ _ _ D'). by rewrite Hp. }
  split.
  { rewrite (delivered_preReadyCount _ _ _ _ D),
      (delivered_preReadyCount _ _ _ _ D'). by rewrite Hp. }
  split.
  { rewrite (delivered_readyCount _ _ _ _ D),
      (delivered_readyCount _ _ _ _ D'). by rewrite Hr. }
  split.
  { apply (flags_after _ countsPreReady m events (withoutErrors events)
             m1 log m1' log'); [|done|done|done].
    intros. apply infoAfter_isPreReady. }
  split.
  { apply (flags_after _ countsReady m events (withoutErrors events)
             m1 log m1' log'); [|done|done|done].
    intros. apply infoAfter_isReady. }
  split.
  { rewrite (observed_isPreReadyOver _ _ _ _ O),
      (observed_isPreReadyOver _ _ _ _ O'). by rewrite Hbp. }
  split.
  { rewrite (observed_preReadyElements _ _ _ _ O),
      (observed_preReadyElements _ _ _ _ O'). by rewrite Hp. }
  split.
  { rewrite (observed_readyElements _ _ _ _ O),
      (observed_readyElements _ _ _ _ O'). by rewrite Hr. }
  split; [done|].
  rewrite (delivered_batchReady _ _ _ _ D), (delivered_batchReady _ _ _ _ D').
  by rewrite Hr.
Qed.

(** *** A batch replaced by the next [check] *)

Lemma infoAfter_loader events j info :
  ElementInfo.loader (infoAfter events j info) = ElementInfo.loader info.
Proof.
  revert info. induction events as [|[index e] events IH]; intros info;
    [done|].
  rewrite infoAfter_cons, IH.
  destruct (index =? j); [|done]. by destruct e as [t|h|[|] h].
Qed.

Lemma unfinishedLoaders_imap {A} (F : nat → A → ElementInfo.t E)
    (l : list A) :
  unfinishedLoaders (imap F l)
  = omap id (imap (λ j a, if ElementInfo.isReady (F j a)
                          then None else ElementInfo.loader (F j a)) l).
Proof.
  revert F. induction l as [|a l IH]; intros F; [done|].
  cbn [imap]. unfold unfinishedLoaders in *. cbn [omap list_omap].
  rewrite IH. by destruct (ElementInfo.isReady (F 0 a)).
Qed.

Lemma checked_options_ext m m' (elements : list E) :
  options m' = options m → listeners m' = listeners m →
  checked m' elements = checked m elements
  ∧ subscriptions m' elements 0 = subscriptions m elements 0.
Proof.
  intros Ho Hl. split.
  - unfold checked. rewrite Ho, Hl. f_equal.
    apply list_fmap_ext. intros _ element _. unfold freshInfo, loaderOf.
    by rewrite Ho.
  - generalize 0. induction elements as [|element rest IH]; intros index;
      [done|].
    cbn. unfold loaderOf. by rewrite IH, Ho.
Qed.

(** X9.  A [check] that follows a batch starts from nothing (both are
    taken to return): whatever the loaders of the first batch delivered,
    the second [check] leaves exactly
    the fields a first [check] of the same elements would leave (counters 0,
    new entries, [totalErrorCount] 0), it destroys the loaders of exactly
    those slots of the first batch that have not reported ready, in slot
    order, and then checks and subscribes to the new loaders. *)
Theorem recheck_starts_over m (first second : list E) events :
  checkable m first = true →
  checkable m second = true →
  inBatch (length first) events = true →
  ∃ m1 log1 m2 log2 m3 log3,
    check first m = Some (tt, m1, log1)
    ∧ deliver events m1 = Some (tt, m2, log2)
    ∧ check second m2 = Some (tt, m3, log3)
    ∧ check second m = Some (tt, m3,
        (LoaderDestroy <$> unfinishedLoaders (elementInfos m))
        ++ subscriptions m second 0
        ++ (if length second =? 0 then [SetTimeout EmptyBatchTask] else []))
    ∧ log3 = (LoaderDestroy <$> unreadyLoaders m first events)
             ++ subscriptions m second 0
             ++ (if length second =? 0 then [SetTimeout EmptyBatchTask]
                 else []).
Proof.
  intros Hcan1 Hcan2 Hin.
  destruct (deliver_run events (checked m first))
    as (m2 & log2 & Hrun & D); [by rewrite checked_length|].
  destruct (checked_options_ext m m2 second) as [Hchecked Hsubs].
  { by rewrite (delivered_options _ _ _ _ D). }
  { by rewrite (delivered_listeners _ _ _ _ D). }
  assert (Hcan2' : checkable m2 second = true).
  { rewrite (checkable_options m m2); [done|].
    by rewrite (delivered_options _ _ _ _ D). }
  exists (checked m first). eexists. exists m2, log2, (checked m second).
  eexists. split; [by apply check_run|]. split; [done|].
  split; [rewrite (check_run _ _ Hcan2'), Hchecked; reflexivity|].
  split; [by apply check_run|].
  rewrite Hsubs. f_equal. f_equal.
  assert (Hinfos : elementInfos m2
            = imap (λ j element, infoAfter events j (freshInfo m element))
                first).
  { apply list_eq. intros j.
    rewrite (delivered_infos _ _ _ _ D), checked_lookup, list_lookup_imap.
    by destruct (first !! j). }
  rewrite Hinfos, unfinishedLoaders_imap. unfold unreadyLoaders. f_equal.
  apply imap_ext. intros j element _. cbn beta.
  rewrite infoAfter_isReady, infoAfter_loader. cbn.
  by destruct (bool_decide (j ∈ indicesOf countsReady events)).
Qed.

(** *** Listeners *)

Lemma calledHandlers_none m (log : list (Effect E)) :
  listeners m = [] → Forall (addressed m) log → calledHandlers log = [].
Proof.
  intros Hls Hall. unfold calledHandlers.
  induction Hall as [|eff log Heff _ IH]; [done|].
  cbn. rewrite IH, app_nil_r.
  destruct eff as [| | |e handlers|]; try done.
  cbn in Heff. subst handlers. unfold handlersFor. by rewrite Hls.
Qed.

Lemma calledHandlers_app (l1 l2 : list (Effect E)) :
  calledHandlers (l1 ++ l2) = calledHandlers l1 ++ calledHandlers l2.
Proof. unfold calledHandlers. apply bind_app. Qed.

Lemma calledHandlers_untriggered (log : list (Effect E)) :
  List.filter isTrigger log = [] → calledHandlers log = [].
Proof.
  unfold calledHandlers. induction log as [|eff log IH]; [done|].
  destruct eff; cbn; try done; intros Hl; by rewrite IH.
Qed.

Lemma destroy_log_untriggered (ls : list (Loader E)) :
  List.filter isTrigger (LoaderDestroy <$> ls) = [].
Proof. induction ls as [|l ls IH]; done. Qed.

(** X10.  After [destroy()] the manager still checks and counts, but calls
    nobody: through a following [check] that returns and any in-range
    events of its
    loaders, no handler is called for any event it triggers, and its list of
    listeners stays empty. *)
Theorem destroyed_manager_calls_nobody m (elements : list E) events :
  checkable m elements = true →
  inBatch (length elements) events = true →
  ∃ m1 log1 m2 log2 m3 log3,
    destroy m = Some (tt, m1, log1)
    ∧ check elements m1 = Some (tt, m2, log2)
    ∧ deliver events m2 = Some (tt, m3, log3)
    ∧ totalCount m3 = length elements
    ∧ listeners m3 = []
    ∧ calledHandlers (log1 ++ log2 ++ log3) = [].
Proof.
  intros Hcan Hin.
  set (m1 := setListeners [] (cleared m)).
  assert (Hcan1 : checkable m1 elements = true)
    by (by rewrite (checkable_options m m1)).
  destruct (deliver_run events (checked m1 elements))
    as (m3 & log3 & Hrun & D); [by rewrite checked_length|].
  exists m1. eexists. exists (checked m1 elements). eexists. exists m3, log3.
  split; [apply destroy_run|]. split; [by apply check_run|]. split; [done|].
  split; [by rewrite (delivered_totalCount _ _ _ _ D)|].
  split; [by rewrite (delivered_listeners _ _ _ _ D)|].
  rewrite calledHandlers_app, (calledHandlers_app _ log3).
  rewrite (calledHandlers_none (checked m1 elements) log3 eq_refl
             (delivered_addressed _ _ _ _ D)).
  rewrite (calledHandlers_untriggered _ (destroy_log_untriggered _)).
  by rewrite (calledHandlers_untriggered _ (check_log_untriggered m1 elements)).
Qed.

(** *** The timer of an empty batch *)

Lemma checked_not_ready m (elements : list E) :
  elements ≠ [] →
  isReady (checked m elements) = false
  ∧ isPreReady (checked m elements) = false.
Proof. by destruct elements. Qed.

Lemma checked_without_loading m (elements : list E) :
  hasLoading (checked m elements) = false
  ∧ getErrorCount (checked m elements) = 0.
Proof.
  unfold hasLoading, getErrorCount. cbn.
  induction elements as [|element rest [IH1 IH2]]; [done|]. by cbn.
Qed.

(** X11.  The timer that [check] of an empty collection sets is not
    cancelled by a later [check]: when a non-empty batch has been checked
    (by a [check] that returns) before the timer runs, the callback
    triggers [preReady] and [ready] for
    that batch, carrying its [totalCount] with [readyCount = 0] and
    [isReady = false], and sets [isPreReadyOver], although no loader has
    reported anything. *)
Theorem stale_timer_announces_next_batch m (elements : list E) :
  checkable m elements = true →
  elements ≠ [] →
  ∃ m1 log1 m2 log2,
    check [] m = Some (tt, m1, log1)
    ∧ SetTimeout EmptyBatchTask ∈ log1
    ∧ check elements m1 = Some (tt, m2, log2)
    ∧ readyCount m2 = 0 ∧ isReady m2 = false
    ∧ runTask EmptyBatchTask m2 =
        Some (tt, setIsPreReadyOver true m2,
              [Trigger
                 (EvPreReady (OnPreReady.mk 0 (length elements) false false))
                 (handlersFor "preReady" m);
               Trigger (EvReady (OnReady.mk 0 0 (length elements)))
                 (handlersFor "ready" m)]).
Proof.
  intros Hcan Hne.
  assert (Hcan1 : checkable (checked m []) elements = true)
    by (by rewrite (checkable_options m (checked m []))).
  exists (checked m []). eexists. exists (checked (checked m []) elements).
  eexists. split; [by apply check_run|].
  split; [cbn; set_solver|]. split; [by apply check_run|].
  destruct (checked_not_ready (checked m []) elements Hne) as [Hr _].
  destruct (checked_without_loading (checked m []) elements) as [Hl He].
  split; [done|]. split; [done|].
  cbn [runTask].
  rewrite (bind_run _ _ _ _ _ _ (onPreReady_run _)), onReady_run.
  unfold getErrorCount, hasLoading, isReady in *.
  cbn [setIsPreReadyOver elementInfos] in *. rewrite Hr, Hl, He.
  reflexivity.
Qed.

(** *** What the batch [ready] carries *)


(** *** A container that knows its size *)

Lemma notify_ready_only mch (k : Container E) (log : list (Effect E)) :
  listeners mch = [("error", ForwardError); ("ready", ForwardReady)] →
  Forall (addressed mch) log →
  withPreReady (foldl notify k log) = withPreReady k
  ∧ milestoneCalls (loaderCalls (foldl notify k log))
    = milestoneCalls (loaderCalls k)
      ++ replicate (batchReadyCount log) (CallOnReady (withPreReady k)).
Proof.
  intros Hls. revert k. induction log as [|eff log IH]; intros k Hall.
  { cbn. by rewrite app_nil_r. }
  apply Forall_cons in Hall as [Heff Hall].
  change (eff :: log) with ([eff] ++ log). rewrite batchReadyCount_app.
  cbn [foldl app].
  destruct eff as [| | |ev handlers|]; cbn [notify]; try by apply IH.
  cbn in Heff. unfold handlersFor in Heff. rewrite Hls in Heff.
  destruct ev as [e|e|e|e|e]; cbn in Heff; subst handlers; cbn [foldl forward];
    try by apply IH.
  - destruct (IH (callLoader (CallOnError (OnError.target e)) k) Hall)
      as [-> ->].
    split; [done|]. cbn. unfold milestoneCalls.
    by rewrite List.filter_app, app_nil_r.
  - destruct (IH (callLoader (CallOnReady (withPreReady k)) k) Hall)
      as [-> ->].
    split; [done|]. cbn. unfold milestoneCalls.
    rewrite List.filter_app. cbn. by rewrite <- app_assoc.
Qed.

(** X13.  When the signal for the children that know their size (the name
    [reqeustReadyChildren] in the code) reaches a container before any
    [requestChildren] -- the container as [getLoader] returned it, with no
    [preReady] listener on the nested manager yet -- the nested manager
    checks [children], and when the nested loaders keep their contract the
    container's loader is told [onReady(false)] once and is never told
    [onPreReady()] by the manager. *)
Theorem sized_container_reports_ready_only m element opts k events :
  getLoader m element opts = Some (Nested k) →
  children k ≠ [] →
  loaderContract (length (children k)) events = true →
  ∃ k1 k2,
    loaderTrigger "reqeustReadyChildren" k = Some k1
    ∧ elementInfos (childrenImReady k1)
      = freshInfo (childrenImReady k) <$> children k
    ∧ runChildren (deliver events) k1 = Some k2
    ∧ milestoneCalls (loaderCalls k2) = [CallOnReady false]
    ∧ withPreReady k2 = false.
Proof.
  intros Hk Hne Hc.
  assert (Hn : 0 < length (children k))
    by (destruct (children k); [done|cbn; lia]).
  assert (Hk1 := requestReadyChildren_run m element opts k Hk).
  destruct (getLoader_nested _ _ _ _ Hk) as (_ & _ & Heq).
  assert (Hcalls : loaderCalls k = []) by (by rewrite Heq).
  assert (Hw : withPreReady k = false) by (by rewrite Heq).
  assert (Hls : listeners (childrenImReady k) =
            [("error", ForwardError); ("ready", ForwardReady)])
    by (by rewrite Heq).
  set (m1 := checked (childrenImReady k) (children k)) in *.
  set (k1 := stepChildren m1 _ k) in Hk1.
  destruct (contract_log m1 events)
    as (m2 & log & Hrun & D & _ & Hready & _);
    try done; try (cbn; by rewrite length_fmap).
  exists k1. eexists. split; [done|]. split; [done|].
  split.
  { unfold runChildren. change (childrenImReady k1) with m1.
    rewrite Hrun. reflexivity. }
  destruct (notify_ready_only m1 (stepChildren m2 log k1) log Hls
              (delivered_addressed _ _ _ _ D)) as [-> ->].
  cbn [k1 stepChildren loaderCalls withPreReady].
  by rewrite Hready, Hcalls, Hw.
Qed.

(** X20.  In the order in which the loader of a container emits them --
    [requestChildren], then the signal for the children that know their
    size, before a nested loader has reported -- the second [check] of the
    nested manager replaces the batch of the first and destroys its
    loaders, and the [preReady] listener that [requestChildren] attached is
    still there: when the loaders of [children] keep their contract the
    container's loader is told [onPreReady()] and then [onReady(false)], or
    [onReady(true)] alone.  (Content elements and children are non-empty, so
    neither [check] sets a timer.) *)
Theorem sized_children_after_content m element opts k events :
  getLoader m element opts = Some (Nested k) →
  let contents :=
    getContentElements element (tags k) (prefix (options m)) in
  contents ≠ [] →
  children k ≠ [] →
  loaderContract (length (children k)) events = true →
  ∃ k1 k2 k3,
    loaderTrigger "requestChildren" k = Some k1
    ∧ loaderTrigger "reqeustReadyChildren" k1 = Some k2
    ∧ elementInfos (childrenImReady k2)
      = freshInfo (childrenImReady k) <$> children k
    ∧ destroyedLoaders (childrenEffects k2)
      = loaderOf (childrenImReady k) <$> contents
    ∧ List.filter (λ eff, match eff with SetTimeout _ => true | _ => false end)
        (childrenEffects k2) = []
    ∧ runChildren (deliver events) k2 = Some k3
    ∧ (milestoneCalls (loaderCalls k3) = [CallOnReady true]
       ∨ milestoneCalls (loaderCalls k3) = [CallOnPreReady; CallOnReady false]).
Proof.
  intros Hk contents Hne1 Hne2 Hc.
  assert (Hn1 : length contents ≠ 0) by (by destruct contents).
  assert (Hn2 : 0 < length (children k))
    by (destruct (children k); [done|cbn; lia]).
  assert (Hk1 := requestChildren_run m element opts k Hk). cbn zeta in Hk1.
  fold contents in Hk1.
  destruct (Nat.eqb_spec (length contents) 0) as [|_]; [done|].
  rewrite app_nil_r in Hk1.
  destruct (getLoader_nested _ _ _ _ Hk) as (_ & Hsel & Heq).
  assert (Hh : loaderHandlers k =
            [("requestChildren", CheckContentElements);
             ("reqeustReadyChildren", CheckChildren);
             ("requestDestroy", DestroyChildren)]) by (by rewrite Heq).
  assert (Hcalls : loaderCalls k = []) by (by rewrite Heq).
  assert (Heff : childrenEffects k = []) by (by rewrite Heq).
  set (nested := childrenImReady k) in *.
  set (m1 := setListeners
               [("error", ForwardError); ("ready", ForwardReady);
                ("preReady", ForwardPreReady)]
               (checked nested contents)) in *.
  set (k1 := stepChildren m1 (subscriptions nested contents 0) k) in *.
  assert (Hcan : checkable m1 (children k) = true).
  { apply checkable_selector. unfold m1, nested. by rewrite Heq. }
  set (log2 := (LoaderDestroy <$> unfinishedLoaders (elementInfos m1))
               ++ subscriptions m1 (children k) 0
               ++ (if length (children k) =? 0
                   then [SetTimeout EmptyBatchTask] else [])).
  set (k2 := stepChildren (checked m1 (children k)) log2 k1).
  assert (Hk2 : loaderTrigger "reqeustReadyChildren" k1 = Some k2).
  { unfold loaderTrigger. change (loaderHandlers k1) with (loaderHandlers k).
    rewrite Hh.
    cbn [List.filter fmap list_fmap String.eqb fst snd requests request
         Ascii.eqb Bool.eqb andb].
    unfold runChildren. change (childrenImReady k1) with m1.
    change (children k1) with (children k).
    rewrite (check_run m1 (children k) Hcan). fold log2.
    rewrite notify_untriggered; [done|].
    apply (check_log_untriggered m1 (children k)). }
  assert (Hunfinished : ∀ els : list E,
            unfinishedLoaders (freshInfo nested <$> els)
            = loaderOf nested <$> els).
  { induction els as [|el els IH]; [done|].
    unfold unfinishedLoaders in *. cbn. by rewrite IH. }
  assert (Hquiet : ∀ m0 (els : list E) index,
            destroyedLoaders (subscriptions m0 els index) = []
            ∧ List.filter
                (λ eff, match eff with SetTimeout _ => true | _ => false end)
                (subscriptions m0 els index) = []).
  { intros m0 els. induction els as [|el els IH]; intros index; [done|].
    cbn. apply IH. }
  destruct (forwarded_once k2 events) as (k3 & Hrun & Hcase);
    try reflexivity.
  { cbn. by rewrite length_fmap. }
  { exact Hn2. }
  { exact Hc. }
  exists k1, k2, k3. split; [exact Hk1|]. split; [exact Hk2|].
  split; [reflexivity|].
  split.
  { cbn [k2 k1 stepChildren childrenEffects]. rewrite Heff. cbn [app].
    unfold log2, destroyedLoaders. rewrite !omap_app.
    fold (destroyedLoaders (subscriptions nested contents 0)).
    fold (destroyedLoaders (subscriptions m1 (children k) 0)).
    rewrite (proj1 (Hquiet nested contents 0)),
      (proj1 (Hquiet m1 (children k) 0)).
    change (elementInfos m1) with (freshInfo nested <$> contents).
    rewrite Hunfinished. cbn [app].
    destruct (length (children k) =? 0); cbn; rewrite app_nil_r;
      clear; induction (loaderOf nested <$> contents) as [|l ls IH];
      [done|by cbn; rewrite IH|done|by cbn; rewrite IH]. }
  split.
  { cbn [k2 k1 stepChildren childrenEffects]. rewrite Heff. cbn [app].
    unfold log2. rewrite !List.filter_app.
    rewrite (proj2 (Hquiet nested contents 0)),
      (proj2 (Hquiet m1 (children k) 0)).
    destruct (Nat.eqb_spec (length (children k)) 0) as [Hz|_]; [lia|].
    cbn [app]. rewrite app_nil_r.
    clear. induction (unfinishedLoaders (elementInfos m1)) as [|l ls IH];
      [done|by cbn]. }
  split; [exact Hrun|].
  cbn [k2 k1 stepChildren loaderCalls] in Hcase.
  by rewrite Hcalls in Hcase.
Qed.

(** *** The entries of a batch *)

Lemma infoAfter_element events j info :
  ElementInfo.element (infoAfter events j info) = ElementInfo.element info.
Proof.
  revert info. induction events as [|[index e] events IH]; intros info;
    [done|].
  rewrite infoAfter_cons, IH.
  destruct (index =? j); [|done]. by destruct e as [t|h|[|] h].
Qed.

(** X17.  The entries of a batch stay where [check] put them: after a
    [check(elements)] that returns and any in-range events, [elementInfos]
    still lists the elements in the order they were passed, each with the
    loader [getLoader] returned for it. *)
Theorem entries_keep_their_elements m (elements : list E) events :
  checkable m elements = true →
  inBatch (length elements) events = true →
  ∃ m1 log1 m2 log,
    check elements m = Some (tt, m1, log1)
    ∧ deliver events m1 = Some (tt, m2, log)
    ∧ ElementInfo.element <$> elementInfos m2 = elements
    ∧ ElementInfo.loader <$> elementInfos m2
      = (λ element, Some (loaderOf m element)) <$> elements
    ∧ (∀ element, element ∈ elements →
         cellLoader
           <$> getLoader m element {| loaderPrefix := prefix (options m) |}
         = Some (loaderOf m element))
    ∧ destroyedLoaders log = [].
Proof.
  intros Hcan Hin.
  destruct (deliver_run events (checked m elements))
    as (m2 & log & Hrun & D); [by rewrite checked_length|].
  destruct (deliver_observed events (checked m elements))
    as (? & ? & Hrun' & O); [by rewrite checked_length|].
  rewrite Hrun in Hrun'. injection Hrun' as <- <-.
  exists (checked m elements). eexists. exists m2, log.
  split; [by apply check_run|]. split; [done|].
  split; [|split; [|split; [|apply (observed_destroyed _ _ _ _ O)]]].
  - apply list_eq. intros j.
    rewrite list_lookup_fmap, (delivered_infos _ _ _ _ D), checked_lookup.
    destruct (elements !! j); [|done]. cbn. by rewrite infoAfter_element.
  - apply list_eq. intros j.
    rewrite !list_lookup_fmap, (delivered_infos _ _ _ _ D), checked_lookup.
    destruct (elements !! j); [|done]. cbn. by rewrite infoAfter_loader.
  - intros element Hel.
    assert (Hr := proj1 (checkable_spec m elements) Hcan element Hel).
    unfold resolves in Hr.
    destruct (getLoader m element _) as [cell|] eqn:Hcell; [|done].
    cbn. by rewrite (getLoader_loaderOf _ _ _ Hcell).
Qed.

(** *** The loading attribute *)

Lemma existsb_fmap {A} (f : A → bool) (l : list A) :
  existsb f l = existsb id (f <$> l).
Proof. induction l as [|x l IH]; [done|]. cbn. by rewrite IH. Qed.

Lemma infoAfter_hasLoading events j info :
  ElementInfo.hasLoading (infoAfter events j info) =
    default (ElementInfo.hasLoading info) (lastLoading events j).
Proof.
  revert info. induction events as [|[index e] events IH]; intros info;
    [done|].
  rewrite infoAfter_cons, IH. unfold lastLoading. cbn -[Nat.eqb].
  destruct (index =? j); [|done].
  destruct e as [t|h|[|] h]; cbn; [done|..];
    rewrite last_cons;
    by destruct (last (omap _ events)).
Qed.

(** X18.  [hasLoading] is the last word of the loader: after a
    [check(elements)] that returns no entry has it, and after any in-range
    events the
    entry of a slot has the [hasLoading] that its loader reported with its
    latest milestone ([error] reports leave it alone), so that
    [hasLoading()] holds exactly when the latest milestone of some slot
    reported it, and a later report without it withdraws it. *)
Theorem hasLoading_is_last_report m (elements : list E) events :
  checkable m elements = true →
  inBatch (length elements) events = true →
  ∃ m1 log1 m2 log,
    check elements m = Some (tt, m1, log1)
    ∧ hasLoading m1 = false
    ∧ deliver events m1 = Some (tt, m2, log)
    ∧ ElementInfo.hasLoading <$> elementInfos m2
      = (λ j, default false (lastLoading events j))
          <$> seq 0 (length elements)
    ∧ (hasLoading m2 = true ↔
       ∃ j, j < length elements ∧ lastLoading events j = Some true).
Proof.
  intros Hcan Hin.
  destruct (deliver_run events (checked m elements))
    as (m2 & log & Hrun & D); [by rewrite checked_length|].
  assert (Hflags : ElementInfo.hasLoading <$> elementInfos m2
                   = (λ j, default false (lastLoading events j))
                       <$> seq 0 (length elements)).
  { apply list_eq. intros j.
    rewrite !list_lookup_fmap, (delivered_infos _ _ _ _ D), checked_lookup.
    destruct (decide (j < length elements)) as [Hj|Hj].
    - rewrite lookup_seq_lt by done.
      destruct (lookup_lt_is_Some_2 elements j Hj) as [element ->]. cbn.
      by rewrite infoAfter_hasLoading.
    - rewrite lookup_seq_ge by lia.
      by rewrite (lookup_ge_None_2 elements j) by lia. }
  exists (checked m elements). eexists. exists m2, log.
  split; [by apply check_run|].
  split; [by destruct (checked_without_loading m elements)|].
  split; [done|]. split; [done|].
  unfold hasLoading.
  rewrite existsb_fmap, Hflags, existsb_exists. split.
  - intros (b & Hb & Htrue). cbn in Htrue. subst b. apply list_elem_of_In, list_elem_of_fmap in Hb.
    destruct Hb as (j & Hj & Hseq). apply elem_of_seq in Hseq.
    exists j. split; [lia|]. by destruct (lastLoading events j) as [[|]|].
  - intros (j & Hj & Hlast). exists true. split; [|done].
    apply list_elem_of_In, list_elem_of_fmap. exists j.
    split; [by rewrite Hlast|]. apply elem_of_seq. lia.
Qed.

End Further.

(** ** The further properties on the page *)

Import PageContainers.

Lemma element_counts_run_up_witness :
  checkable imReady [Img1; Img2] = true
  ∧ inBatch (length [Img1; Img2]) orderly = true
  ∧ ∃ m1 log1 m2 log,
      check [Img1; Img2] imReady = Some (tt, m1, log1)
      ∧ deliver orderly m1 = Some (tt, m2, log)
      ∧ preReadyElementCounts log = [(1, 2); (2, 2)]
      ∧ readyElementCounts log = [(1, 1, 2); (2, 0, 2)].
Proof.
  split; [reflexivity|]. split; [reflexivity|].
  destruct (element_counts_run_up imReady [Img1; Img2] orderly)
    as (m1 & log1 & m2 & log & Hcheck & Hrun & Hpre & Hready);
    [reflexivity|reflexivity|].
  exists m1, log1, m2, log.
  split; [exact Hcheck|]. split; [exact Hrun|].
  split; [rewrite Hpre|rewrite Hready]; reflexivity.
Defined.

Lemma errors_are_passed_on_witness :
  inBatch (length (elementInfos halfway)) failures = true
  ∧ ∃ m' log,
      deliver failures halfway = Some (tt, m', log)
      ∧ errorEvents log = [(0, Img1); (1, Img2); (0, Img1)]
      ∧ totalErrorCount m' = 3.
Proof.
  split; [reflexivity|].
  destruct (errors_are_passed_on halfway failures eq_refl)
    as (m' & log & Hrun & Herr & Htotal).
  exists m', log. split; [exact Hrun|].
  split; [rewrite Herr|rewrite Htotal]; reflexivity.
Defined.



Lemma counters_count_flagged_entries_witness :
  checkable imReady [Img1; Img2] = true
  ∧ inBatch (length [Img1; Img2]) orderly = true
  ∧ bool_decide (NoDup (indicesOf countsPreReady orderly)) = true
  ∧ bool_decide (NoDup (indicesOf countsReady orderly)) = true
  ∧ ∃ m1 log1 m2 log,
      check [Img1; Img2] imReady = Some (tt, m1, log1)
      ∧ deliver orderly m1 = Some (tt, m2, log)
      ∧ preReadyCount m2
        = length (List.filter ElementInfo.isPreReady (elementInfos m2))
      ∧ readyCount m2
        = length (List.filter ElementInfo.isReady (elementInfos m2))
      ∧ (isPreReady m2 = true ↔ preReadyCount m2 = totalCount m2)
      ∧ (isReady m2 = true ↔ readyCount m2 = totalCount m2).
Proof.
  split; [reflexivity|]. split; [reflexivity|]. split; [reflexivity|].
  split; [reflexivity|].
  destruct (counters_count_flagged_entries imReady [Img1; Img2] orderly)
    as (m1 & log1 & m2 & log & Hcheck & Hrun & Hp & Hr & _ & _ & Hip & Hir);
    [reflexivity|reflexivity|reflexivity|reflexivity|].
  exists m1, log1, m2, log. repeat split; assumption || apply Hip || apply Hir.
Defined.

Lemma delivery_order_does_not_matter_witness :
  inBatch (length (elementInfos halfway)) orderly = true
  ∧ orderly ≡ₚ reordered
  ∧ ∃ m1 log m1' log',
      deliver orderly halfway = Some (tt, m1, log)
      ∧ deliver reordered halfway = Some (tt, m1', log')
      ∧ preReadyCount m1 = preReadyCount m1'
      ∧ readyCount m1 = readyCount m1'
      ∧ batchPreReadyCount log = batchPreReadyCount log'
      ∧ batchReadyCount log = batchReadyCount log'.
Proof.
  split; [reflexivity|]. split; [apply perm_swap|].
  destruct (delivery_order_does_not_matter halfway orderly reordered eq_refl
              (perm_swap _ _ _))
    as (m1 & log & m1' & log' & Hrun & Hrun' & Hp & Hr & _ & _ & _ & _
        & Hbp & Hbr).
  exists m1, log, m1', log'. repeat split; assumption.
Defined.

Lemma errors_leave_milestones_alone_witness :
  inBatch (length (elementInfos halfway)) orderly = true
  ∧ ∃ m1 log m1' log',
      deliver orderly halfway = Some (tt, m1, log)
      ∧ deliver (withoutErrors orderly) halfway = Some (tt, m1', log')
      ∧ preReadyCount m1 = preReadyCount m1'
      ∧ readyCount m1 = readyCount m1'
      ∧ preReadyElementCounts log = preReadyElementCounts log'
      ∧ readyElementCounts log = readyElementCounts log'.
Proof.
  split; [reflexivity|].
  destruct (errors_leave_milestones_alone halfway orderly eq_refl)
    as (m1 & log & m1' & log' & Hrun & Hrun' & Hp & Hr & _ & _ & _ & Hpe
        & Hre & _).
  exists m1, log, m1', log'. repeat split; assumption.
Defined.

Lemma recheck_starts_over_witness :
  checkable imReady [Img1; Img2] = true
  ∧ checkable imReady [Img2] = true
  ∧ inBatch (length [Img1; Img2]) silent = true
  ∧ ∃ m1 log1 m2 log2 m3 log3,
      check [Img1; Img2] imReady = Some (tt, m1, log1)
      ∧ deliver silent m1 = Some (tt, m2, log2)
      ∧ check [Img2] m2 = Some (tt, m3, log3)
      ∧ m3 = checked imReady [Img2]
      ∧ destroyedLoaders log3 = [imageLoader Img2].
Proof.
  split; [reflexivity|]. split; [reflexivity|]. split; [reflexivity|].
  destruct (recheck_starts_over imReady [Img1; Img2] [Img2] silent)
    as (m1 & log1 & m2 & log2 & m3 & log3 & Hc1 & Hrun & Hc2 & Hsame & Hlog);
    [reflexivity|reflexivity|reflexivity|].
  exists m1, log1, m2, log2, m3, log3.
  split; [exact Hc1|]. split; [exact Hrun|]. split; [exact Hc2|].
  split.
  - rewrite check_run in Hsame by reflexivity. by injection Hsame as <-.
  - rewrite Hlog. reflexivity.
Defined.

Lemma destroyed_manager_calls_nobody_witness :
  checkable halfway [Img1; Img2] = true
  ∧ inBatch (length [Img1; Img2]) orderly = true
  ∧ ∃ m1 log1 m2 log2 m3 log3,
      destroy halfway = Some (tt, m1, log1)
      ∧ check [Img1; Img2] m1 = Some (tt, m2, log2)
      ∧ deliver orderly m2 = Some (tt, m3, log3)
      ∧ totalCount m3 = 2
      ∧ listeners m3 = []
      ∧ calledHandlers (log1 ++ log2 ++ log3) = [].
Proof.
  split; [reflexivity|]. split; [reflexivity|].
  apply (destroyed_manager_calls_nobody halfway [Img1; Img2] orderly);
    reflexivity.
Defined.

Lemma stale_timer_announces_next_batch_witness :
  checkable imReady [Img1; Img2] = true
  ∧ [Img1; Img2] ≠ []
  ∧ ∃ m1 log1 m2 log2,
      check [] imReady = Some (tt, m1, log1)
      ∧ SetTimeout EmptyBatchTask ∈ log1
      ∧ check [Img1; Img2] m1 = Some (tt, m2, log2)
      ∧ readyCount m2 = 0 ∧ isReady m2 = false
      ∧ runTask EmptyBatchTask m2 =
          Some (tt, setIsPreReadyOver true m2,
                [Trigger (EvPreReady (OnPreReady.mk 0 2 false false))
                   (handlersFor "preReady" imReady);
                 Trigger (EvReady (OnReady.mk 0 0 2))
                   (handlersFor "ready" imReady)]).
Proof.
  split; [reflexivity|]. split; [done|].
  apply (stale_timer_announces_next_batch imReady [Img1; Img2]);
    [reflexivity|done].
Defined.


Lemma sized_container_reports_ready_only_witness :
  getLoader imReady Div {| loaderPrefix := "data-" |}
    = Some (Nested divContainer)
  ∧ children divContainer ≠ []
  ∧ loaderContract (length (children divContainer)) orderly = true
  ∧ ∃ k1 k2,
      loaderTrigger "reqeustReadyChildren" divContainer = Some k1
      ∧ runChildren (deliver orderly) k1 = Some k2
      ∧ milestoneCalls (loaderCalls k2) = [CallOnReady false]
      ∧ withPreReady k2 = false.
Proof.
  assert (Hk : getLoader imReady Div {| loaderPrefix := "data-" |}
               = Some (Nested divContainer)) by reflexivity.
  split; [exact Hk|]. split; [done|]. split; [reflexivity|].
  destruct (sized_container_reports_ready_only imReady Div
              {| loaderPrefix := "data-" |} divContainer orderly Hk)
    as (k1 & k2 & Hk1 & _ & Hrun & Hcalls & Hw); [done|reflexivity|].
  exists k1, k2.
  split; [exact Hk1|]. split; [exact Hrun|].
  split; [exact Hcalls|exact Hw].
Defined.

Lemma container_reports_once_witness :
  getLoader imReady Div {| loaderPrefix := "data-" |}
    = Some (Nested divContainer)
  ∧ getContentElements Div (tags divContainer) (prefix (options imReady)) ≠ []
  ∧ loaderContract 2 orderly = true
  ∧ ∃ k1 k2,
      loaderTrigger "requestChildren" divContainer = Some k1
      ∧ runChildren (deliver orderly) k1 = Some k2
      ∧ (milestoneCalls (loaderCalls k2) = [CallOnReady true]
         ∨ milestoneCalls (loaderCalls k2)
           = [CallOnPreReady; CallOnReady false]).
Proof.
  assert (Hk : getLoader imReady Div {| loaderPrefix := "data-" |}
               = Some (Nested divContainer)) by (vm_compute; reflexivity).
  assert (Hcontents : getContentElements Div (tags divContainer)
                        (prefix (options imReady)) = [Img1; Img2])
    by (vm_compute; reflexivity).
  split; [exact Hk|]. split; [by rewrite Hcontents|].
  split; [vm_compute; reflexivity|].
  destruct (container_reports_once imReady Div {| loaderPrefix := "data-" |}
              divContainer orderly Hk)
    as (k1 & k2 & Hk1 & _ & Hrun & Hcalls).
  { by rewrite Hcontents. }
  { rewrite Hcontents. vm_compute. reflexivity. }
  exists k1, k2.
  split; [exact Hk1|]. split; [exact Hrun|exact Hcalls].
Defined.

Lemma container_without_content_witness :
  getLoader imReady Video {| loaderPrefix := "data-" |}
    = Some (Nested videoContainer)
  ∧ getContentElements Video (tags videoContainer) (prefix (options imReady))
    = []
  ∧ ∃ k1 k2,
      loaderTrigger "requestChildren" videoContainer = Some k1
      ∧ childrenEffects k1 = [SetTimeout EmptyBatchTask]
      ∧ loaderCalls k1 = []
      ∧ childTask EmptyBatchTask k1 = Some k2
      ∧ loaderCalls k2 = [CallOnReady true].
Proof.
  assert (Hk : getLoader imReady Video {| loaderPrefix := "data-" |}
               = Some (Nested videoContainer)) by (vm_compute; reflexivity).
  split; [exact Hk|]. split; [vm_compute; reflexivity|].
  apply (container_without_content imReady Video {| loaderPrefix := "data-" |}
           videoContainer Hk). vm_compute. reflexivity.
Defined.

Lemma container_forwards_error_witness :
  elementInfos (childrenImReady divChecking) !! 1
    = Some (freshInfo nested Img2)
  ∧ handlersFor "error" (childrenImReady divChecking) = [ForwardError]
  ∧ ∃ k',
      childLoaderEvent 1 (LoaderError Img2) divChecking = Some k'
      ∧ loaderCalls k' = loaderCalls divChecking ++ [CallOnError Img2]
      ∧ withPreReady k' = withPreReady divChecking.
Proof.
  split; [vm_compute; reflexivity|]. split; [vm_compute; reflexivity|].
  apply (container_forwards_error divChecking 1 Img2 (freshInfo nested Img2));
    vm_compute; reflexivity.
Defined.

Example divChecking_reached :
  loaderTrigger "requestChildren" divContainer = Some divChecking.
Proof. vm_compute. reflexivity. Qed.

Lemma entries_keep_their_elements_witness :
  checkable imReady [Img1; Img2] = true
  ∧ inBatch (length [Img1; Img2]) orderly = true
  ∧ ∃ m1 log1 m2 log,
      check [Img1; Img2] imReady = Some (tt, m1, log1)
      ∧ deliver orderly m1 = Some (tt, m2, log)
      ∧ ElementInfo.element <$> elementInfos m2 = [Img1; Img2]
      ∧ ElementInfo.loader <$> elementInfos m2
        = [Some (imageLoader Img1); Some (imageLoader Img2)]
      ∧ destroyedLoaders log = [].
Proof.
  split; [reflexivity|]. split; [reflexivity|].
  destruct (entries_keep_their_elements imReady [Img1; Img2] orderly)
    as (m1 & log1 & m2 & log & Hcheck & Hrun & Hel & Hlo & _ & Hde);
    [reflexivity|reflexivity|].
  exists m1, log1, m2, log.
  split; [exact Hcheck|]. split; [exact Hrun|]. split; [exact Hel|].
  split; [|exact Hde]. rewrite Hlo. vm_compute. reflexivity.
Defined.

Lemma hasLoading_is_last_report_witness :
  checkable imReady [Img1; Img2] = true
  ∧ inBatch (length [Img1; Img2]) withdrawn = true
  ∧ ∃ m1 log1 m2 log,
      check [Img1; Img2] imReady = Some (tt, m1, log1)
      ∧ hasLoading m1 = false
      ∧ deliver withdrawn m1 = Some (tt, m2, log)
      ∧ ElementInfo.hasLoading <$> elementInfos m2 = [false; true]
      ∧ hasLoading m2 = true.
Proof.
  split; [reflexivity|]. split; [reflexivity|].
  destruct (hasLoading_is_last_report imReady [Img1; Img2] withdrawn)
    as (m1 & log1 & m2 & log & Hcheck & Hnone & Hrun & Hflags & Hsome);
    [reflexivity|reflexivity|].
  exists m1, log1, m2, log.
  split; [exact Hcheck|]. split; [exact Hnone|]. split; [exact Hrun|].
  split; [exact Hflags|].
  apply Hsome. exists 1. split; [cbn; lia|reflexivity].
Defined.


Lemma sized_children_after_content_witness :
  getLoader imReady Div {| loaderPrefix := "data-" |}
    = Some (Nested divContainer)
  ∧ getContentElements Div (tags divContainer) (prefix (options imReady)) ≠ []
  ∧ children divContainer ≠ []
  ∧ loaderContract (length (children divContainer)) orderly = true
  ∧ ∃ k1 k2 k3,
      loaderTrigger "requestChildren" divContainer = Some k1
      ∧ loaderTrigger "reqeustReadyChildren" k1 = Some k2
      ∧ destroyedLoaders (childrenEffects k2)
        = [imageLoader Img1; imageLoader Img2]
      ∧ runChildren (deliver orderly) k2 = Some k3
      ∧ (milestoneCalls (loaderCalls k3) = [CallOnReady true]
         ∨ milestoneCalls (loaderCalls k3)
           = [CallOnPreReady; CallOnReady false]).
Proof.
  assert (Hk : getLoader imReady Div {| loaderPrefix := "data-" |}
               = Some (Nested divContainer)) by reflexivity.
  split; [exact Hk|]. split; [done|]. split; [done|]. split; [reflexivity|].
  destruct (sized_children_after_content imReady Div
              {| loaderPrefix := "data-" |} divContainer orderly Hk)
    as (k1 & k2 & k3 & Hk1 & Hk2 & _ & Hd & _ & Hrun & Hcase);
    [done|done|reflexivity|].
  exists k1, k2, k3.
  split; [exact Hk1|]. split; [exact Hk2|]. split; [exact Hd|].
  split; [exact Hrun|exact Hcase].
Defined.
